(** * spotify-shortcut: playlist resolution, device selection, playback and
      the HTTP play handler, embedded from the Go sources.

    Go strings are byte sequences; they are embedded as [string], one
    [ascii] per byte, so that [String.length] is Go's [len].  Go's [int] is
    embedded as [Z] with the 64-bit two's-complement wrap-around written out.
    Remote calls, prints and log lines are recorded in an event trace. *)

From Stdlib Require Import ZArith List Bool Lia String Ascii.
From Stdlib Require Import Numbers.DecimalString.
Import ListNotations.

Open Scope string_scope.
Open Scope Z_scope.

(* ================================================================== *)
(** ** The parts of Go's [strings] package the program calls            *)
(* ================================================================== *)

Module GoStrings.

(** [strings.HasPrefix(s, p)]. *)
Definition HasPrefix (s p : string) : bool := String.prefix p s.

(** [s[n:]] for [n <= len(s)]. *)
Fixpoint drop (n : nat) (s : string) : string :=
  match n, s with
  | O, _ => s
  | S n', String _ s' => drop n' s'
  | S _, EmptyString => EmptyString
  end.

(** [strings.Contains(s, substr)]: some suffix of [s] starts with
    [substr]. *)
Fixpoint Contains (s substr : string) : bool :=
  if HasPrefix s substr then true
  else match s with
       | EmptyString => false
       | String _ s' => Contains s' substr
       end.

(** [strings.Cut(s, sep)]: the text before and after the first
    occurrence of [sep]; it is the step of [strings.Split]'s loop
    ([m := Index(s, sep); a[i] = s[:m]; s = s[m+len(sep):]]). *)
Fixpoint Cut (s sep : string) : option (string * string) :=
  if HasPrefix s sep then Some (EmptyString, drop (String.length sep) s)
  else match s with
       | EmptyString => None
       | String c s' =>
           match Cut s' sep with
           | Some (before, after) => Some (String c before, after)
           | None => None
           end
       end.

(** The loop of [strings.Split] for a non-empty separator; every round
    consumes at least one byte, so [len(s)] rounds are enough. *)
Fixpoint SplitLoop (rounds : nat) (s sep : string) : list string :=
  match rounds with
  | O => [s]
  | S rounds' =>
      match Cut s sep with
      | None => [s]
      | Some (before, after) => before :: SplitLoop rounds' after sep
      end
  end.

(** [strings.Split(s, sep)], for the non-empty separators the program
    passes. *)
Definition Split (s sep : string) : list string :=
  SplitLoop (String.length s) s sep.

(** [strings.TrimPrefix(s, prefix)]. *)
Definition TrimPrefix (s p : string) : string :=
  if HasPrefix s p then drop (String.length p) s else s.

Definition is_upper (c : ascii) : bool :=
  let n := nat_of_ascii c in (Nat.leb 65 n && Nat.leb n 90)%bool.

Definition lower_byte (c : ascii) : ascii :=
  if is_upper c then ascii_of_nat (nat_of_ascii c + 32) else c.

(** [strings.ToLower] on the ASCII letters; other bytes are kept. *)
Fixpoint ToLower (s : string) : string :=
  match s with
  | EmptyString => EmptyString
  | String c s' => String (lower_byte c) (ToLower s')
  end.

(** [strings.EqualFold] on ASCII text: equality up to the case of the
    letters A-Z.  It instantiates the [EqualFold] parameter of the model
    in the examples. *)
Fixpoint EqualFoldASCII (s t : string) : bool :=
  match s, t with
  | EmptyString, EmptyString => true
  | String a s', String b t' =>
      (Ascii.eqb (lower_byte a) (lower_byte b) && EqualFoldASCII s' t')%bool
  | _, _ => false
  end.

End GoStrings.

(* ================================================================== *)
(** ** Go's [int], [math/rand.Intn], errors and [fmt] verbs             *)
(* ================================================================== *)

Module GoRuntime.

Definition int_min : Z := - 2 ^ 63.
Definition int_max : Z := 2 ^ 63 - 1.

(** Conversion to [int]: two's-complement wrap-around on 64 bits. *)
Definition int_wrap (z : Z) : Z := (z + 2 ^ 63) mod 2 ^ 64 - 2 ^ 63.

Definition int_add (a b : Z) : Z := int_wrap (a + b).

(** [len(x)] as an [int]. *)
Definition len {A : Type} (l : list A) : Z := Z.of_nat (List.length l).
Definition strlen (s : string) : Z := Z.of_nat (String.length s).

(** Go errors: [errors.New]/[fmt.Errorf] without [%w], and
    [fmt.Errorf("prefix: %w", err)], which wraps [err]. *)
Inductive error : Type :=
| ErrorNew (msg : string)
| ErrorWrap (prefix : string) (inner : error).

(** The [Error()] method. *)
Fixpoint ErrorText (e : error) : string :=
  match e with
  | ErrorNew msg => msg
  | ErrorWrap p inner => p ++ ErrorText inner
  end.

(** [errors.Unwrap]. *)
Definition Unwrap (e : error) : option error :=
  match e with
  | ErrorNew _ => None
  | ErrorWrap _ inner => Some inner
  end.

(** A Go [(T, error)] result. *)
Inductive result (T : Type) : Type :=
| Ok (v : T)
| Err (e : error).
Arguments Ok {T} v.
Arguments Err {T} e.

(** The [%d] verb. *)
Definition fmt_d (z : Z) : string := NilZero.string_of_int (Z.to_int z).

(** The [%v] verb on a [bool]. *)
Definition fmt_bool (b : bool) : string := if b then "true" else "false".

Definition dquote : string := String (ascii_of_nat 34) EmptyString.
Definition newline : string := String (ascii_of_nat 10) EmptyString.

End GoRuntime.

Import GoStrings GoRuntime.

(* ================================================================== *)
(** ** Data of the remote service (github.com/zmb3/spotify/v2)          *)
(* ================================================================== *)

(** [spotify.PlayerDevice], with the fields the program reads. *)
Record PlayerDevice : Type := mkDevice {
  DeviceID : string;
  DeviceName : string;
  DeviceType : string;
  Active : bool
}.

(** [spotify.SimplePlaylist], an entry of a playlist page. *)
Record SimplePlaylist : Type := mkSimplePlaylist {
  PlaylistID : string;
  PlaylistName : string
}.

(** [spotify.FullPlaylist]: the name and [Tracks.Total]. *)
Record FullPlaylist : Type := mkFullPlaylist {
  FullName : string;
  TracksTotal : Z
}.

(** [spotify.PlayOptions]; [PlaybackOffset] holds the [Position]. *)
Record PlayOptions : Type := mkPlayOptions {
  OptDeviceID : option string;
  PlaybackContext : option string;
  PlaybackOffset : option Z
}.

(** The [SpotifyClient] / [Client] interface of types.go: the answers of
    the remote service to the calls of one invocation. *)
Record Client : Type := mkClient {
  CurrentUsersPlaylists : Z -> Z -> result (list SimplePlaylist);
  PlayerDevices : result (list PlayerDevice);
  GetPlaylist : string -> result FullPlaylist;
  PlayOpt : PlayOptions -> option error;
  Pause : option error;
  Shuffle : bool -> option error
}.

(** [APIResponse] of types.go. *)
Record APIResponse : Type := mkAPIResponse {
  Success : bool;
  Message : string;
  Error : string
}.

(* ================================================================== *)
(** ** Effects: a trace of events and the ways a Go call can end        *)
(* ================================================================== *)

Inductive Event : Type :=
| CallCurrentUsersPlaylists (limit offset : Z)
| CallPlayerDevices
| CallGetPlaylist (id : string)
| CallPlayOpt (opts : PlayOptions)
| CallPause
| CallShuffle (on : bool)
| Sleep (milliseconds : Z)
| Stdout (text : string)
| Log (text : string).

Definition is_remote_call (e : Event) : bool :=
  match e with
  | Sleep _ | Stdout _ | Log _ => false
  | _ => true
  end.

Definition is_stdout (e : Event) : bool :=
  match e with
  | Stdout _ => true
  | _ => false
  end.

(** How running a Go function ends: it returns, it panics, the process
    exits in [log.Fatal], or the model's loop budget is used up. *)
Inductive Outcome (A : Type) : Type :=
| Done (a : A)
| Panic (msg : string)
| Fatal (msg : string)
| OutOfFuel.
Arguments Done {A} a.
Arguments Panic {A} msg.
Arguments Fatal {A} msg.
Arguments OutOfFuel {A}.

(** A computation: its outcome and the events it produced, in order. *)
Definition M (A : Type) : Type := (Outcome A * list Event)%type.

Definition ret {A : Type} (a : A) : M A := (Done a, []).

Definition bind {A B : Type} (m : M A) (k : A -> M B) : M B :=
  match m with
  | (Done a, t) => let (o, t') := k a in (o, (t ++ t')%list)
  | (Panic msg, t) => (Panic msg, t)
  | (Fatal msg, t) => (Fatal msg, t)
  | (OutOfFuel, t) => (OutOfFuel, t)
  end.

Notation "x <- m ;; k" := (bind m (fun x => k))
  (at level 61, m at next level, right associativity).
Notation "m ;;; k" := (bind m (fun _ => k))
  (at level 61, right associativity).

Definition emit (e : Event) : M unit := (Done tt, [e]).
Definition panic {A : Type} (msg : string) : M A := (Panic msg, []).
Definition fatal {A : Type} (msg : string) : M A := (Fatal msg, []).
Definition out_of_fuel {A : Type} : M A := (OutOfFuel, []).

Definition outcome {A : Type} (m : M A) : Outcome A := fst m.
Definition trace {A : Type} (m : M A) : list Event := snd m.

(** The remote calls of a run, without prints, log lines and sleeps. *)
Definition remote_calls {A : Type} (m : M A) : list Event :=
  filter is_remote_call (trace m).

(** The calls through the client interface. *)
Definition callCurrentUsersPlaylists (c : Client) (limit offset : Z)
  : M (result (list SimplePlaylist)) :=
  emit (CallCurrentUsersPlaylists limit offset) ;;;
  ret (CurrentUsersPlaylists c limit offset).

Definition callPlayerDevices (c : Client) : M (result (list PlayerDevice)) :=
  emit CallPlayerDevices ;;; ret (PlayerDevices c).

Definition callGetPlaylist (c : Client) (id : string) : M (result FullPlaylist) :=
  emit (CallGetPlaylist id) ;;; ret (GetPlaylist c id).

Definition callPlayOpt (c : Client) (opts : PlayOptions) : M (option error) :=
  emit (CallPlayOpt opts) ;;; ret (PlayOpt c opts).

Definition callPause (c : Client) : M (option error) :=
  emit CallPause ;;; ret (Pause c).

Definition callShuffle (c : Client) (on : bool) : M (option error) :=
  emit (CallShuffle on) ;;; ret (Shuffle c on).

(** [math/rand.Intn(n)]: it panics if [n <= 0]; otherwise it returns a
    number of [[0, n)], here the draw of the random source reduced modulo
    [n] (every value of [[0, n)] is the image of some draw). *)
Definition Intn (draw n : Z) : M Z :=
  if n <=? 0 then panic "invalid argument to Intn" else ret (draw mod n).

(* ================================================================== *)
(** ** The program                                                      *)
(* ================================================================== *)

Section Program.

(** [strings.EqualFold]: equality of two UTF-8 strings under Unicode
    simple case folding.  The program only calls it; it is a parameter of
    the model ([GoStrings.EqualFoldASCII] is its ASCII instance). *)
Variable EqualFold : string -> string -> bool.

(** *** playlist.go (package main and package spotify are the same text) *)

Definition playlistMarker : string := "spotify.com/playlist/".

(** [extractPlaylistID].  [parts[1]] is read after [len(parts) > 1] and
    [Split] never returns an empty slice, so neither index can fail. *)
Definition extractPlaylistID (input : string) : string :=
  if Contains input playlistMarker then
    let parts := Split input "/playlist/" in
    if 1 <? len parts then
      let id := nth 0 (Split (nth 1 parts EmptyString) "?") EmptyString in
      id
    else input
  else input.

(** The [for _, playlist := range playlists.Playlists] loop of
    [resolvePlaylistIDQuiet]: [Some id] is a [return id, nil] from inside
    the loop, [None] is the loop running to its end. *)
Fixpoint scanPageQuiet (input : string) (playlists : list SimplePlaylist)
  : option string :=
  match playlists with
  | [] => None
  | playlist :: rest =>
      if EqualFold (PlaylistName playlist) input then Some (PlaylistID playlist)
      else if String.eqb (PlaylistID playlist) input then Some input
      else scanPageQuiet input rest
  end.

(** The paging [for { ... }] loop of [resolvePlaylistIDQuiet]:
    [Some r] is a [return] from inside the loop, [None] is [break]. *)
Fixpoint pageLoopQuiet (fuel : nat) (client : Client) (input : string)
         (limit offset : Z) : M (option (result string)) :=
  match fuel with
  | O => out_of_fuel
  | S fuel' =>
      r <- callCurrentUsersPlaylists client limit offset ;;
      match r with
      | Err err => ret (Some (Err (ErrorWrap "failed to get playlists: " err)))
      | Ok playlists =>
          match scanPageQuiet input playlists with
          | Some id => ret (Some (Ok id))
          | None =>
              if len playlists <? limit then ret None
              else pageLoopQuiet fuel' client input limit (int_add offset limit)
          end
      end
  end.

(** [resolvePlaylistIDQuiet]. *)
Definition resolvePlaylistIDQuiet (fuel : nat) (client : Client)
           (input : string) : M (result string) :=
  if Contains input playlistMarker then ret (Ok (extractPlaylistID input))
  else if (strlen input =? 22) && negb (Contains input " ") then ret (Ok input)
  else
    let limit := 50 in
    let offset := 0 in
    r <- pageLoopQuiet fuel client input limit offset ;;
    match r with
    | Some returned => ret returned
    | None => ret (Ok input)
    end.

(** The entry loop of the narrated [resolvePlaylistID]. *)
Fixpoint scanPage (input : string) (playlists : list SimplePlaylist)
  : M (option string) :=
  match playlists with
  | [] => ret None
  | playlist :: rest =>
      if EqualFold (PlaylistName playlist) input then
        emit (Stdout ("Found playlist: " ++ dquote ++ PlaylistName playlist
                     ++ dquote ++ " (ID: " ++ PlaylistID playlist ++ ")"
                     ++ newline)) ;;;
        ret (Some (PlaylistID playlist))
      else if String.eqb (PlaylistID playlist) input then ret (Some input)
      else scanPage input rest
  end.

Fixpoint pageLoop (fuel : nat) (client : Client) (input : string)
         (limit offset : Z) : M (option (result string)) :=
  match fuel with
  | O => out_of_fuel
  | S fuel' =>
      r <- callCurrentUsersPlaylists client limit offset ;;
      match r with
      | Err err => ret (Some (Err (ErrorWrap "failed to get playlists: " err)))
      | Ok playlists =>
          found <- scanPage input playlists ;;
          match found with
          | Some id => ret (Some (Ok id))
          | None =>
              if len playlists <? limit then ret None
              else pageLoop fuel' client input limit (int_add offset limit)
          end
      end
  end.

(** [resolvePlaylistID], the variant that narrates on standard output. *)
Definition resolvePlaylistID (fuel : nat) (client : Client)
           (input : string) : M (result string) :=
  if Contains input playlistMarker then ret (Ok (extractPlaylistID input))
  else if (strlen input =? 22) && negb (Contains input " ") then ret (Ok input)
  else
    emit (Stdout ("Searching for playlist: " ++ dquote ++ input ++ dquote
                 ++ "..." ++ newline)) ;;;
    let limit := 50 in
    let offset := 0 in
    r <- pageLoop fuel client input limit offset ;;
    match r with
    | Some returned => ret returned
    | None =>
        emit (Stdout ("No playlist found with name " ++ dquote ++ input
                     ++ dquote ++ ", trying as ID..." ++ newline)) ;;;
        ret (Ok input)
    end.

(** *** player.go: [PlayPlaylist] / [playPlaylist] *)

(** [deviceName != "" && (device.Name == deviceName ||
    string(device.ID) == deviceName)]. *)
Definition matchesHint (deviceName : string) (device : PlayerDevice) : bool :=
  negb (String.eqb deviceName EmptyString)
  && (String.eqb (DeviceName device) deviceName
      || String.eqb (DeviceID device) deviceName).

(** The first loop of [PlayPlaylist], which [break]s at a match; the
    pointer [&devices[i]] is the index [i], [nil] is [None]. *)
Fixpoint findTarget (deviceName : string) (devices : list PlayerDevice)
         (i : nat) : option nat :=
  match devices with
  | [] => None
  | device :: rest =>
      if matchesHint deviceName device then Some i
      else findTarget deviceName rest (S i)
  end.

(** The loop over the active flag, which [break]s at the first hit. *)
Fixpoint findActive (devices : list PlayerDevice) (i : nat) : option nat :=
  match devices with
  | [] => None
  | device :: rest =>
      if Active device then Some i else findActive rest (S i)
  end.

(** Lines 40-60 of player.go: the index [targetDevice] points to. *)
Definition targetIndex (deviceName : string) (devices : list PlayerDevice)
  : nat :=
  match findTarget deviceName devices 0 with
  | Some i => i
  | None =>
      match findActive devices 0 with
      | Some i => i
      | None => 0%nat
      end
  end.

(** [devices[i]]; an index out of range is a run-time panic. *)
Definition element {A : Type} (l : list A) (i : nat) : M A :=
  match nth_error l i with
  | Some x => ret x
  | None => panic "index out of range"
  end.

Definition notAuthenticated : error :=
  ErrorNew "Spotify not authenticated. Visit /auth to authenticate".

Definition noDevices : error := ErrorNew "no Spotify Connect devices found".

(** [PlayPlaylist]; [spotifyClient] is the package variable ([nil] is
    [None]) and [draw] the next draw of the global random source. *)
Definition PlayPlaylist (fuel : nat) (spotifyClient : option Client)
           (draw : Z) (deviceName playlistInput : string) (shuffle : bool)
  : M (result string) :=
  match spotifyClient with
  | None => ret (Err notAuthenticated)
  | Some client =>
      r <- callPlayerDevices client ;;
      match r with
      | Err err => ret (Err (ErrorWrap "failed to get devices: " err))
      | Ok devices =>
          if len devices =? 0 then ret (Err noDevices)
          else
            targetDevice <- element devices (targetIndex deviceName devices) ;;
            r <- resolvePlaylistIDQuiet fuel client playlistInput ;;
            match r with
            | Err err => ret (Err (ErrorWrap "failed to resolve playlist: " err))
            | Ok playlistID =>
                r <- callGetPlaylist client playlistID ;;
                match r with
                | Err err => ret (Err (ErrorWrap "failed to get playlist: " err))
                | Ok playlist =>
                    let trackCount := int_wrap (TracksTotal playlist) in
                    let playlistURI := "spotify:playlist:" ++ playlistID in
                    let opts := mkPlayOptions (Some (DeviceID targetDevice))
                                              (Some playlistURI) None in
                    if shuffle then
                      randomOffset <- Intn draw trackCount ;;
                      let opts := mkPlayOptions (OptDeviceID opts)
                                    (PlaybackContext opts) (Some randomOffset) in
                      err <- callPlayOpt client opts ;;
                      match err with
                      | Some err =>
                          ret (Err (ErrorWrap "failed to start playback: " err))
                      | None =>
                          emit (Sleep 500) ;;;
                          err <- callShuffle client true ;;
                          match err with
                          | Some err =>
                              emit (Log ("Warning: Failed to enable shuffle: "
                                         ++ ErrorText err))
                          | None => ret tt
                          end ;;;
                          ret (Ok ("Now playing " ++ dquote ++ FullName playlist
                                   ++ dquote ++ " on " ++ DeviceName targetDevice
                                   ++ " (shuffle enabled, starting at track "
                                   ++ fmt_d (int_add randomOffset 1) ++ " of "
                                   ++ fmt_d trackCount ++ ")"))
                      end
                    else
                      let startPosition := 0 in
                      let opts := mkPlayOptions (OptDeviceID opts)
                                    (PlaybackContext opts) (Some startPosition) in
                      err <- callPlayOpt client opts ;;
                      match err with
                      | Some err =>
                          ret (Err (ErrorWrap "failed to start playback: " err))
                      | None =>
                          ret (Ok ("Now playing " ++ dquote ++ FullName playlist
                                   ++ dquote ++ " on " ++ DeviceName targetDevice
                                   ++ " (starting at track 1)"))
                      end
                end
            end
      end
  end.

(** [PausePlayback]. *)
Definition PausePlayback (spotifyClient : option Client) : M (result string) :=
  match spotifyClient with
  | None => ret (Err notAuthenticated)
  | Some client =>
      err <- callPause client ;;
      match err with
      | Some err => ret (Err (ErrorWrap "failed to pause playback: " err))
      | None => ret (Ok "Playback paused")
      end
  end.

(** *** main.go (command line): [handlePlayPlaylist] *)

(** The first loop of [handlePlayPlaylist]: it lists every device and
    assigns [targetDevice] at each match, without leaving the loop. *)
Fixpoint listAndFindTarget (deviceName : string) (devices : list PlayerDevice)
         (i : nat) (targetDevice : option nat) : M (option nat) :=
  match devices with
  | [] => ret targetDevice
  | device :: rest =>
      emit (Stdout ("  " ++ fmt_d (int_add (Z.of_nat i) 1) ++ ". "
                   ++ DeviceName device ++ " (" ++ DeviceType device
                   ++ ") - Active: " ++ fmt_bool (Active device) ++ newline)) ;;;
      let targetDevice :=
        if matchesHint deviceName device then Some i else targetDevice in
      listAndFindTarget deviceName rest (S i) targetDevice
  end.

(** Lines 225-253 of main.go: the device [targetDevice] points to when
    the selection is over. *)
Definition chooseDevice (devices : list PlayerDevice) (deviceName : string)
  : M PlayerDevice :=
  emit (Stdout (newline ++ "Available devices:" ++ newline)) ;;;
  targetDevice <- listAndFindTarget deviceName devices 0 None ;;
  match targetDevice with
  | None =>
      (if negb (String.eqb deviceName EmptyString)
       then emit (Stdout (newline ++ "Device '" ++ deviceName ++ "' not found. "))
       else ret tt) ;;;
      let i := match findActive devices 0 with
               | Some i => i
               | None => 0%nat
               end in
      target <- element devices i ;;
      emit (Stdout ("Using device: " ++ DeviceName target ++ newline)) ;;;
      ret target
  | Some i =>
      target <- element devices i ;;
      emit (Stdout (newline ++ "Using specified device: " ++ DeviceName target
                   ++ newline)) ;;;
      ret target
  end.

(** [handlePlayPlaylist]; [log.Fatalf] ends the process. *)
Definition handlePlayPlaylist (fuel : nat) (client : Client) (draw : Z)
           (devices : list PlayerDevice) (deviceName playlistID : string)
           (shuffle : bool) : M unit :=
  targetDevice <- chooseDevice devices deviceName ;;
  r <- resolvePlaylistID fuel client playlistID ;;
  match r with
  | Err err => fatal ("Failed to resolve playlist: " ++ ErrorText err)
  | Ok resolvedPlaylistID =>
      r <- callGetPlaylist client resolvedPlaylistID ;;
      match r with
      | Err err =>
          fatal ("Failed to get playlist (ID: " ++ resolvedPlaylistID ++ "): "
                 ++ ErrorText err ++ newline
                 ++ "Make sure the playlist ID is correct and the playlist is accessible.")
      | Ok playlist =>
          let trackCount := int_wrap (TracksTotal playlist) in
          let playlistURI := "spotify:playlist:" ++ resolvedPlaylistID in
          let opts := mkPlayOptions (Some (DeviceID targetDevice))
                                    (Some playlistURI) None in
          if shuffle then
            randomOffset <- Intn draw trackCount ;;
            let opts := mkPlayOptions (OptDeviceID opts) (PlaybackContext opts)
                                      (Some randomOffset) in
            err <- callPlayOpt client opts ;;
            match err with
            | Some err => fatal ("Failed to start playback: " ++ ErrorText err)
            | None =>
                emit (Stdout ("Now playing playlist " ++ dquote
                             ++ FullName playlist ++ dquote ++ " on "
                             ++ DeviceName targetDevice ++ " (starting at track "
                             ++ fmt_d (int_add randomOffset 1) ++ " of "
                             ++ fmt_d trackCount ++ ")" ++ newline)) ;;;
                emit (Sleep 500) ;;;
                err <- callShuffle client true ;;
                match err with
                | Some err =>
                    emit (Log ("Warning: Failed to enable shuffle: "
                               ++ ErrorText err))
                | None => emit (Stdout ("Shuffle mode enabled" ++ newline))
                end
            end
          else
            let startPosition := 0 in
            let opts := mkPlayOptions (OptDeviceID opts) (PlaybackContext opts)
                                      (Some startPosition) in
            err <- callPlayOpt client opts ;;
            match err with
            | Some err => fatal ("Failed to start playback: " ++ ErrorText err)
            | None =>
                emit (Stdout ("Now playing playlist " ++ dquote
                             ++ FullName playlist ++ dquote ++ " on "
                             ++ DeviceName targetDevice
                             ++ " (starting at track 1)" ++ newline))
            end
      end
  end.

(** *** server.go: [handlePlayRequest] *)

(** A request: the parsed query string and the headers, both as
    key/value lists in the order received. *)
Record Request : Type := mkRequest {
  Query : list (string * string);
  Header : list (string * string)
}.

(** [url.Values.Get] and [http.Header.Get]: the first value stored for
    the key, or the empty string. *)
Fixpoint Get (values : list (string * string)) (key : string) : string :=
  match values with
  | [] => EmptyString
  | (k, v) :: rest => if String.eqb k key then v else Get rest key
  end.

(** What the handler wrote: status code, [Content-Type] and the JSON
    body before encoding. *)
Record Response : Type := mkResponse {
  Code : Z;
  ContentType : string;
  Body : APIResponse
}.

Definition StatusOK : Z := 200.
Definition StatusBadRequest : Z := 400.
Definition StatusUnauthorized : Z := 401.
Definition StatusInternalServerError : Z := 500.

Definition invalidTokenBody : APIResponse :=
  mkAPIResponse false EmptyString "Invalid or missing access token".

Definition missingPlaylistBody : APIResponse :=
  mkAPIResponse false EmptyString "playlist parameter is required".

(** The token a request presents: the [token] query parameter, or, when
    that is empty, the [Authorization] header without a leading
    ["Bearer "]. *)
Definition requestToken (r : Request) : string :=
  let token := Get (Query r) "token" in
  if String.eqb token EmptyString
  then TrimPrefix (Get (Header r) "Authorization") "Bearer "
  else token.

(** [handlePlayRequest]; [apiAccessToken] and [spotifyClient] are the
    package variables. *)
Definition handlePlayRequest (fuel : nat) (apiAccessToken : string)
           (spotifyClient : option Client) (draw : Z) (r : Request)
  : M Response :=
  let contentType := "application/json" in
  let token := requestToken r in
  if negb (String.eqb token apiAccessToken) then
    ret (mkResponse StatusUnauthorized contentType invalidTokenBody)
  else
    let deviceName := Get (Query r) "device" in
    let playlistInput := Get (Query r) "playlist" in
    let shuffleStr := Get (Query r) "shuffle" in
    if String.eqb playlistInput EmptyString then
      ret (mkResponse StatusBadRequest contentType missingPlaylistBody)
    else
      let shuffle := String.eqb (ToLower shuffleStr) "true" in
      res <- PlayPlaylist fuel spotifyClient draw deviceName playlistInput shuffle ;;
      match res with
      | Err err =>
          ret (mkResponse StatusInternalServerError contentType
                          (mkAPIResponse false EmptyString (ErrorText err)))
      | Ok result =>
          ret (mkResponse StatusOK contentType
                          (mkAPIResponse true result EmptyString))
      end.

End Program.

Arguments element {A} l i.


(* ================================================================== *)
(** ** Vocabulary of the statements                                     *)
(* ================================================================== *)

(** [sep] starts at byte [m] of [s]. *)
Definition occurs_at (sep s : string) (m : nat) : bool :=
  HasPrefix (drop m s) sep.

(** [id] is the stretch of [input] that starts right after the first
    ["/playlist/"] and stops before the first ["?"] or the next
    ["/playlist/"] that follows, or at the end of [input]. *)
Definition link_segment (input id : string) : Prop :=
  exists pre rest,
    input = pre ++ "/playlist/" ++ id ++ rest
    /\ (forall m, (m < String.length pre)%nat ->
                  occurs_at "/playlist/" input m = false)
    /\ (forall m, (m < String.length id)%nat ->
                  occurs_at "?" (id ++ rest) m = false
                  /\ occurs_at "/playlist/" (id ++ rest) m = false)
    /\ (rest = EmptyString
        \/ HasPrefix rest "?" = true
        \/ HasPrefix rest "/playlist/" = true).

(** The reading of the link form that stops only at a ["?"]: the text
    after the first ["/playlist/"] up to the first ["?"] that follows, or
    to the end.  It is written with the standard library's [index] and
    [substring], not with the model of [strings.Split]. *)
Definition text_up_to_question (input : string) : option string :=
  match String.index 0 "/playlist/" input with
  | None => None
  | Some i =>
      let start := (i + String.length "/playlist/")%nat in
      let after := String.substring start (String.length input - start) input in
      match String.index 0 "?" after with
      | Some j => Some (String.substring 0 j after)
      | None => Some after
      end
  end.

(** The same run without its prints: what is left of a narrated run once
    the text written to standard output is put aside. *)
Definition silent {A : Type} (m : M A) : M A :=
  (outcome m, filter (fun e => negb (is_stdout e)) (trace m)).

Section NameSearch.

Variable EqualFold : string -> string -> bool.

(** An entry answers the input: its name equals the input under case
    folding, or its ID equals the input byte for byte. *)
Definition entry_matches (input : string) (entry : SimplePlaylist) : bool :=
  EqualFold (PlaylistName entry) input || String.eqb (PlaylistID entry) input.

(** The number of pages read from [pages]: up to and including the first
    page that holds a matching entry, all of them if there is none. *)
Fixpoint pages_read (input : string) (pages : list (list SimplePlaylist))
  : nat :=
  match pages with
  | [] => 0%nat
  | page :: rest =>
      if existsb (entry_matches input) page then 1%nat
      else S (pages_read input rest)
  end.

End NameSearch.

(** The lister answers page [i] of [pages] at offset [50 * i], limit 50. *)
Definition serves (client : Client) (pages : list (list SimplePlaylist)) : Prop :=
  map (fun i => CurrentUsersPlaylists client 50 (50 * Z.of_nat i))
      (seq 0 (List.length pages))
  = map Ok pages.

(** The requests for pages [k], [k+1], ..., [k+n-1]: limit 50, offset 50
    times the page number. *)
Definition page_requests_from (k n : nat) : list Event :=
  map (fun i => CallCurrentUsersPlaylists 50 (50 * Z.of_nat i)) (seq k n).

(** The requests for the first [n] pages: offsets 0, 50, ... *)
Definition page_requests (n : nat) : list Event := page_requests_from 0 n.

(** [i] is the position of the first device that satisfies [p]. *)
Definition first_index (p : PlayerDevice -> bool) (devices : list PlayerDevice)
           (i : nat) : Prop :=
  (exists device, nth_error devices i = Some device /\ p device = true)
  /\ forall j device, (j < i)%nat -> nth_error devices j = Some device ->
                      p device = false.

(** [i] is the position of the last device that satisfies [p]. *)
Definition last_index (p : PlayerDevice -> bool) (devices : list PlayerDevice)
           (i : nat) : Prop :=
  (exists device, nth_error devices i = Some device /\ p device = true)
  /\ forall j device, (i < j)%nat -> nth_error devices j = Some device ->
                      p device = false.

(* ================================================================== *)
(** ** Concrete clients, devices and requests                           *)
(* ================================================================== *)

Module Examples.

(** The devices of [TestPlayPlaylist_DeviceSelection]. *)
Definition threeSpeakers : list PlayerDevice :=
  [ mkDevice "device1" "First Speaker" "Speaker" false;
    mkDevice "device2" "Second Speaker" "Speaker" false;
    mkDevice "device3" "Target Speaker" "Speaker" false ].

(** Two devices that carry the same name. *)
Definition twoDens : list PlayerDevice :=
  [ mkDevice "den-left" "Den" "Speaker" false;
    mkDevice "den-right" "Den" "Speaker" false ].

(** The page of [TestResolvePlaylistIDQuiet_Name]. *)
Definition awesomePage : list SimplePlaylist :=
  [ mkSimplePlaylist "found123playlistid00" "My Awesome Playlist";
    mkSimplePlaylist "other456playlistid00" "Other Playlist" ].

(** A full page of fifty entries, none of them of interest. *)
Definition fillerPage : list SimplePlaylist :=
  repeat (mkSimplePlaylist "filler00playlistid000" "Filler") 50.

(** A client in the manner of the test double: one page of playlists
    whatever the offset, a ten-track playlist, every command accepted. *)
Definition mockClient (devices : list PlayerDevice) (total : Z) : Client :=
  mkClient (fun _ _ => Ok awesomePage)
           (Ok devices)
           (fun _ => Ok (mkFullPlaylist "Test Playlist" total))
           (fun _ => None)
           None
           (fun _ => None).

(** A lister with a full first page and a short second one. *)
Definition twoPageClient : Client :=
  mkClient (fun _ offset =>
              if offset =? 0 then Ok fillerPage
              else if offset =? 50 then Ok awesomePage
              else Err (ErrorNew "offset out of range"))
           (Ok threeSpeakers)
           (fun _ => Ok (mkFullPlaylist "Test Playlist" 10))
           (fun _ => None)
           None
           (fun _ => None).

(** A lister whose second page cannot be fetched. *)
Definition failingClient : Client :=
  mkClient (fun _ offset =>
              if offset =? 0 then Ok fillerPage
              else Err (ErrorNew "API error"))
           (Ok threeSpeakers)
           (fun _ => Ok (mkFullPlaylist "Test Playlist" 10))
           (fun _ => None)
           None
           (fun _ => None).

(** A user whose library holds a playlist with a 22-byte name. *)
Definition roadTripClient : Client :=
  mkClient (fun _ _ => Ok [mkSimplePlaylist "37i9dQZF1DXcBWIGoYBM5M"
                                            "Summer-Road-Trip-2024!"])
           (Ok threeSpeakers)
           (fun _ => Ok (mkFullPlaylist "Summer-Road-Trip-2024!" 10))
           (fun _ => None)
           None
           (fun _ => None).

(** A link in which ["/playlist/"] occurs twice. *)
Definition doubleSegmentLink : string :=
  "https://open.spotify.com/playlist/abc/playlist/def?si=1".

Definition shareLink : string :=
  "https://open.spotify.com/playlist/37i9dQZF1DXcBWIGoYBM5M?si=abc123".

(** [/api/v1/play] with neither token nor playlist. *)
Definition bareRequest : Request := mkRequest [] [].

(** [/api/v1/play?token=test-token], the request of
    [TestHandlePlayRequest_MissingPlaylist]. *)
Definition tokenOnlyRequest : Request :=
  mkRequest [("token", "test-token")] [].

(** [/api/v1/play?playlist=test] with a wrong bearer token. *)
Definition wrongBearerRequest : Request :=
  mkRequest [("playlist", "test")] [("Authorization", "Bearer wrong-token")].

End Examples.
(* ================================================================== *)
(** ** More of the program                                              *)
(* ================================================================== *)

(** *** server.go: the other handlers *)

(** [handlePauseRequest]. *)
Definition handlePauseRequest (apiAccessToken : string)
           (spotifyClient : option Client) (r : Request) : M Response :=
  let contentType := "application/json" in
  let token := requestToken r in
  if negb (String.eqb token apiAccessToken) then
    ret (mkResponse StatusUnauthorized contentType invalidTokenBody)
  else
    res <- PausePlayback spotifyClient ;;
    match res with
    | Err err =>
        ret (mkResponse StatusInternalServerError contentType
                        (mkAPIResponse false EmptyString (ErrorText err)))
    | Ok result =>
        ret (mkResponse StatusOK contentType
                        (mkAPIResponse true result EmptyString))
    end.

(** What a handler that answers in plain text asks of [net/http]. *)
Inductive Reply : Type :=
| HttpError (msg : string) (code : Z)
| HttpNotFound
| HttpRedirect (url : string) (code : Z)
| PlainText (contentType body : string).

Definition StatusTemporaryRedirect : Z := 307.
Definition StatusForbidden : Z := 403.

(** [state] of config.go. *)
Definition state : string := "spotify-shortcut-state".

(** [handleRootRequest]; [path] is [r.URL.Path]. *)
Definition handleRootRequest (path : string) : Reply :=
  if negb (String.eqb path "/") then HttpNotFound
  else PlainText "text/plain" "app coming soon....".

(** [handleAuthRequest]; [authURL] is [auth.AuthURL] of the OAuth
    library. *)
Definition handleAuthRequest (authURL : string -> string)
           (apiAccessToken : string) (r : Request) : Reply :=
  let token := requestToken r in
  if negb (String.eqb token apiAccessToken) then
    HttpError "Unauthorized: Invalid or missing access token" StatusUnauthorized
  else
    let url := authURL state in
    HttpRedirect url StatusTemporaryRedirect.

Section AuthCallback.

(** An OAuth token, [*oauth2.Token]. *)
Variable Token : Type.

(** What [handleAuthCallback] leaves behind: its reply, the token handed
    to [saveToken] and the token of the client stored in [spotifyClient]
    ([None]: nothing saved, session untouched). *)
Record CallbackResult : Type := mkCallbackResult {
  CallbackReply : Reply;
  SavedToken : option Token;
  SessionToken : option Token
}.

(** [handleAuthCallback]; [exchange] is the result of [auth.Token] and
    [formState] is [r.FormValue("state")]. *)
Definition handleAuthCallback (exchange : result Token) (formState : string)
  : CallbackResult :=
  match exchange with
  | Err err =>
      mkCallbackResult
        (HttpError ("Failed to get token: " ++ ErrorText err) StatusForbidden)
        None None
  | Ok tok =>
      if negb (String.eqb formState state) then
        mkCallbackResult (HttpError "State mismatch" StatusForbidden) None None
      else
        mkCallbackResult
          (PlainText "text/plain"
                     "Authentication successful! You can close this window.")
          (Some tok) (Some tok)
  end.

End AuthCallback.

(** *** main.go (command line): listing the playlists *)

(** The paging loop of [handleListPlaylists] (lines 199-215): it appends
    every page to [allPlaylists]; a failed fetch ends the process. *)
Fixpoint listLoop (fuel : nat) (client : Client)
         (allPlaylists : list SimplePlaylist) (limit offset : Z)
  : M (list SimplePlaylist) :=
  match fuel with
  | O => out_of_fuel
  | S fuel' =>
      r <- callCurrentUsersPlaylists client limit offset ;;
      match r with
      | Err err => fatal ("Failed to get playlists: " ++ ErrorText err)
      | Ok playlists =>
          let allPlaylists := (allPlaylists ++ playlists)%list in
          if len playlists <? limit then ret allPlaylists
          else listLoop fuel' client allPlaylists limit (int_add offset limit)
      end
  end.

(** The playlists [handleListPlaylists] hands to the table printer. *)
Definition fetchAllPlaylists (fuel : nat) (client : Client)
  : M (list SimplePlaylist) :=
  let limit := 50 in
  let offset := 0 in
  listLoop fuel client [] limit offset.

(** *** main.go: [main], from the flags and the environment to the mode *)

(** The command-line flags after [flag.Parse]. *)
Record Flags : Type := mkFlags {
  listDevices : bool;
  listPlaylists : bool;
  debug : bool;
  shuffleFlag : bool;
  deviceFlag : string;
  playlistFlag : string;
  serverMode : bool;
  pauseMode : bool
}.

(** What [main] has set when it hands over: the package variables
    [tokenFile] and [apiAccessToken] and the authenticator's settings. *)
Record Settings : Type := mkSettings {
  settingClientID : string;
  settingClientSecret : string;
  settingRedirectURI : string;
  settingTokenFile : string;
  settingAPIAccessToken : string
}.

(** How [main] ends: in [log.Fatal], in [runServerMode], or in
    [runCLIMode] with its arguments. *)
Inductive Startup : Type :=
| ExitFatal (msg : string)
| RunServerMode (settings : Settings)
| RunCLIMode (settings : Settings) (flags : Flags)
             (deviceName playlistID : string).

(** [defaultRedirectURI] and [defaultTokenFile] of config.go. *)
Definition defaultRedirectURI : string := "http://127.0.0.1:8080/callback".
Definition defaultTokenFile : string := ".spotify_token.json".

(** [main]; [getenv] is [os.Getenv] once the .env file is loaded (an
    unset variable reads as the empty string). *)
Definition main (flags : Flags) (getenv : string -> string) : Startup :=
  let clientID := getenv "SPOTIFY_CLIENT_ID" in
  let clientSecret := getenv "SPOTIFY_CLIENT_SECRET" in
  let redirectURI := getenv "SPOTIFY_REDIRECT_URI" in
  let redirectURI :=
    if String.eqb redirectURI EmptyString then defaultRedirectURI
    else redirectURI in
  let tokenFile := getenv "SPOTIFY_TOKEN_FILE" in
  let tokenFile :=
    if String.eqb tokenFile EmptyString then defaultTokenFile else tokenFile in
  let playlistID := playlistFlag flags in
  let playlistID :=
    if String.eqb playlistID EmptyString then getenv "SPOTIFY_PLAYLIST_ID"
    else playlistID in
  let deviceName := deviceFlag flags in
  let deviceName :=
    if String.eqb deviceName EmptyString then getenv "SPOTIFY_DEVICE_NAME"
    else deviceName in
  if String.eqb clientID EmptyString || String.eqb clientSecret EmptyString then
    ExitFatal "SPOTIFY_CLIENT_ID and SPOTIFY_CLIENT_SECRET environment variables are required"
  else if String.eqb playlistID EmptyString && negb (listDevices flags)
          && negb (listPlaylists flags) && negb (serverMode flags)
          && negb (pauseMode flags) then
    ExitFatal "SPOTIFY_PLAYLIST_ID is required. Use -playlist flag or set in .env"
  else
    let apiAccessToken := getenv "API_ACCESS_TOKEN" in
    if serverMode flags && String.eqb apiAccessToken EmptyString then
      ExitFatal "API_ACCESS_TOKEN environment variable is required for server mode"
    else
      let settings := mkSettings clientID clientSecret redirectURI tokenFile
                                 apiAccessToken in
      if serverMode flags then RunServerMode settings
      else RunCLIMode settings flags deviceName playlistID.

(* ================================================================== *)
(** ** More vocabulary                                                  *)
(* ================================================================== *)

(** The byte [c] occurs in [s]. *)
Fixpoint has_byte (c : ascii) (s : string) : bool :=
  match s with
  | EmptyString => false
  | String b s' => Ascii.eqb b c || has_byte c s'
  end.

(** A request to the playlist lister with page size 50. *)
Definition is_lister_request (e : Event) : bool :=
  match e with
  | CallCurrentUsersPlaylists limit _ => limit =? 50
  | _ => false
  end.

(** A remote call other than a request to the playlist lister. *)
Definition is_command (e : Event) : bool :=
  match e with
  | CallPlayerDevices | CallGetPlaylist _ | CallPlayOpt _ | CallPause
  | CallShuffle _ => true
  | _ => false
  end.

(** [l] is an initial stretch of [l']. *)
Definition is_prefix_of {A : Type} (l l' : list A) : Prop :=
  exists rest, l' = (l ++ rest)%list.

(** The order of the commands of one play invocation (the lister requests
    of the resolver left out): the device fetch, the metadata fetch, the
    play command and, for a shuffle play only, the shuffle toggle; a run
    may stop after any of them. *)
Definition play_protocol (shuffle : bool) (commands : list Event) : bool :=
  match commands with
  | [] => true
  | [CallPlayerDevices] => true
  | [CallPlayerDevices; CallGetPlaylist _] => true
  | [CallPlayerDevices; CallGetPlaylist _; CallPlayOpt _] => true
  | [CallPlayerDevices; CallGetPlaylist _; CallPlayOpt _; CallShuffle on] =>
      shuffle && on
  | _ => false
  end.

(** A run of [PlayPlaylist] and a run of the command line's
    [handlePlayPlaylist] end alike: both succeed; or the first returns an
    error where the second ends the process in [log.Fatalf]; or both panic
    with the same message; or both are still paging. *)
Definition same_ending (server : Outcome (result string)) (cli : Outcome unit)
  : Prop :=
  match server, cli with
  | Done (Ok _), Done _ => True
  | Done (Err _), Fatal _ => True
  | Panic msg, Panic msg' => msg = msg'
  | OutOfFuel, OutOfFuel => True
  | _, _ => False
  end.

(* ================================================================== *)
(** ** More concrete clients and requests                               *)
(* ================================================================== *)

Module MoreExamples.

(** A lister that answers every offset with the same full page. *)
Definition loopingClient : Client :=
  mkClient (fun _ _ => Ok Examples.fillerPage)
           (Ok Examples.threeSpeakers)
           (fun _ => Ok (mkFullPlaylist "Test Playlist" 10))
           (fun _ => None)
           None
           (fun _ => None).

(** A lister that fails at once. *)
Definition brokenListerClient : Client :=
  mkClient (fun _ _ => Err (ErrorNew "API error"))
           (Ok Examples.threeSpeakers)
           (fun _ => Ok (mkFullPlaylist "Test Playlist" 10))
           (fun _ => None)
           None
           (fun _ => None).

(** A remote service that refuses every play command. *)
Definition refusingClient : Client :=
  mkClient (fun _ _ => Ok Examples.awesomePage)
           (Ok Examples.threeSpeakers)
           (fun _ => Ok (mkFullPlaylist "Test Playlist" 10))
           (fun _ => Some (ErrorNew "Player command failed: No active device found"))
           None
           (fun _ => None).

(** A remote service that plays but refuses to switch shuffle on. *)
Definition noShuffleClient : Client :=
  mkClient (fun _ _ => Ok Examples.awesomePage)
           (Ok Examples.threeSpeakers)
           (fun _ => Ok (mkFullPlaylist "Test Playlist" 10))
           (fun _ => None)
           None
           (fun _ => Some (ErrorNew "Player command failed: Restriction violated")).

Definition targetSpeaker : PlayerDevice :=
  mkDevice "device3" "Target Speaker" "Speaker" false.

Definition tenTracks : FullPlaylist := mkFullPlaylist "Test Playlist" 10.

Definition bareID : string := "37i9dQZF1DXcBWIGoYBM5M".

Definition playOptions (offset : Z) : PlayOptions :=
  mkPlayOptions (Some "device3")
                (Some "spotify:playlist:37i9dQZF1DXcBWIGoYBM5M")
                (Some offset).

(** [/api/v1/play?token=test-token&playlist=<bare ID>]. *)
Definition playByQuery : Request :=
  mkRequest [("token", "test-token"); ("playlist", bareID)] [].

(** The same request with the token as a bearer header. *)
Definition playByHeader : Request :=
  mkRequest [("playlist", bareID)] [("Authorization", "Bearer test-token")].

(** A wrong [token] parameter next to the right bearer header. *)
Definition wrongQueryRightHeader : Request :=
  mkRequest [("token", "guess"); ("playlist", bareID)]
            [("Authorization", "Bearer test-token")].

(** [/api/v1/play?token=test-token&playlist=Some Playlist]. *)
Definition playByName : Request :=
  mkRequest [("token", "test-token"); ("playlist", "Some Playlist")] [].

(** An environment with credentials and an API access token. *)
Definition serverEnv (name : string) : string :=
  if String.eqb name "SPOTIFY_CLIENT_ID" then "client-id"
  else if String.eqb name "SPOTIFY_CLIENT_SECRET" then "client-secret"
  else if String.eqb name "API_ACCESS_TOKEN" then "test-token"
  else if String.eqb name "SPOTIFY_PLAYLIST_ID" then bareID
  else EmptyString.

(** [-server]. *)
Definition serverFlags : Flags :=
  mkFlags false false false false EmptyString EmptyString true false.

(** [-playlist "My Awesome Playlist" -device "Target Speaker"]. *)
Definition playFlags : Flags :=
  mkFlags false false false false "Target Speaker" "My Awesome Playlist"
          false false.

Definition serverSettings : Settings :=
  mkSettings "client-id" "client-secret" defaultRedirectURI defaultTokenFile
             "test-token".

End MoreExamples.


(* ================================================================== *)
(** ** Bytes and characters                                             *)
(* ================================================================== *)

(** A byte that continues a UTF-8 character ([10xxxxxx]). *)
Definition is_continuation_byte (c : ascii) : bool :=
  let n := nat_of_ascii c in (Nat.leb 128 n && Nat.ltb n 192)%bool.

(** The number of characters of a UTF-8 string (Go's
    [utf8.RuneCountInString] on well-formed text): the bytes that do not
    continue a character.  [len(input)], which the resolver tests, is
    [String.length], the number of bytes; the two agree on ASCII text. *)
Fixpoint utf8_length (s : string) : nat :=
  match s with
  | EmptyString => 0%nat
  | String c s' =>
      if is_continuation_byte c then utf8_length s' else S (utf8_length s')
  end.

Module Accents.

(** U+00E9, e with acute accent, in UTF-8: C3 A9. *)
Definition eAcute : string :=
  String (ascii_of_nat 195) (String (ascii_of_nat 169) EmptyString).

(** U+20AC, the euro sign, in UTF-8: E2 82 AC. *)
Definition euroSign : string :=
  String (ascii_of_nat 226)
         (String (ascii_of_nat 130) (String (ascii_of_nat 172) EmptyString)).

(** A playlist name of 22 characters and 23 bytes. *)
Definition cafeName : string := "Caf" ++ eAcute ++ "-Road-Trip-2024-xx".

(** A playlist name of 20 characters and 22 bytes. *)
Definition euroName : string := euroSign ++ "uro-Trip-Summer-24!".

(** A user whose library holds both playlists. *)
Definition accentsClient : Client :=
  mkClient (fun _ _ => Ok [ mkSimplePlaylist "37i9dQZF1DXcBWIGoYBM5M" cafeName;
                            mkSimplePlaylist "5FJXhjdILmRA2z5bvz4nzf" euroName ])
           (Ok Examples.threeSpeakers)
           (fun _ => Ok (mkFullPlaylist "Test Playlist" 10))
           (fun _ => None)
           None
           (fun _ => None).

End Accents.

(* ================================================================== *)
(** ** Facts about the string primitives                                *)
(* ================================================================== *)

Section StringFacts.

Local Open Scope nat_scope.

Lemma prefix_cons (a b : ascii) (p s : string) :
  String.prefix (String a p) (String b s)
  = if ascii_dec a b then String.prefix p s else false.
Proof. reflexivity. Qed.

Lemma prefix_nil (s : string) : String.prefix EmptyString s = true.
Proof. now destruct s. Qed.

Lemma HasPrefix_iff (s p : string) :
  HasPrefix s p = true <-> exists r, s = p ++ r.
Proof.
  unfold HasPrefix. revert s.
  induction p as [|a p IH]; intros s.
  - split; [intros _; now exists s | intros _; apply prefix_nil].
  - destruct s as [|b s].
    + split; [discriminate | intros [r Hr]; discriminate].
    + rewrite prefix_cons. destruct (ascii_dec a b) as [->|Hab].
      * rewrite IH. split; intros [r Hr]; exists r.
        -- simpl. now rewrite Hr.
        -- simpl in Hr. now injection Hr.
      * split; [discriminate|].
        intros [r Hr]. simpl in Hr. injection Hr as Hb _. congruence.
Qed.

Lemma HasPrefix_app (p r : string) : HasPrefix (p ++ r) p = true.
Proof. apply HasPrefix_iff. now exists r. Qed.

Lemma drop_app_length (p r : string) : drop (String.length p) (p ++ r) = r.
Proof. induction p as [|a p IH]; simpl; [reflexivity | exact IH]. Qed.

Lemma length_append (s t : string) :
  String.length (s ++ t) = String.length s + String.length t.
Proof. induction s as [|a s IH]; simpl; [reflexivity | now rewrite IH]. Qed.

Lemma append_assoc (s t u : string) : (s ++ t) ++ u = s ++ t ++ u.
Proof. induction s as [|a s IH]; simpl; [reflexivity | now rewrite IH]. Qed.

Lemma append_nil_r (s : string) : s ++ EmptyString = s.
Proof. induction s as [|a s IH]; simpl; [reflexivity | now rewrite IH]. Qed.

Lemma occurs_at_0 (sep s : string) : occurs_at sep s 0 = HasPrefix s sep.
Proof. reflexivity. Qed.

Lemma occurs_at_S (sep : string) (a : ascii) (s : string) (m : nat) :
  occurs_at sep (String a s) (S m) = occurs_at sep s m.
Proof. reflexivity. Qed.

Lemma occurs_at_nil (sep : string) (m : nat) :
  occurs_at sep EmptyString m = HasPrefix EmptyString sep.
Proof. now destruct m. Qed.

Lemma prefix_app_window (sep s x : string) :
  String.length sep <= String.length s ->
  String.prefix sep (s ++ x) = String.prefix sep s.
Proof.
  revert s. induction sep as [|b sep IH]; intros s Hlen.
  - now rewrite !prefix_nil.
  - destruct s as [|a s]; [simpl in Hlen; lia|].
    simpl append. rewrite !prefix_cons.
    destruct (ascii_dec b a); [|reflexivity].
    apply IH. simpl in Hlen. lia.
Qed.

(** A window that lies inside [s] does not see what is appended. *)
Lemma occurs_at_app (sep s x : string) (m : nat) :
  m + String.length sep <= String.length s ->
  occurs_at sep (s ++ x) m = occurs_at sep s m.
Proof.
  revert m. induction s as [|a s IH]; intros m Hm.
  - simpl in Hm. assert (m = 0) by lia. subst m.
    apply (prefix_app_window sep EmptyString x). simpl in *. lia.
  - destruct m as [|m].
    + apply (prefix_app_window sep (String a s) x). simpl in *. lia.
    + simpl append. rewrite !occurs_at_S. apply IH. simpl in Hm. lia.
Qed.

Lemma Contains_nil (sep : string) :
  Contains EmptyString sep = HasPrefix EmptyString sep.
Proof.
  change (Contains EmptyString sep)
    with (if HasPrefix EmptyString sep then true else false).
  now destruct (HasPrefix EmptyString sep).
Qed.

Lemma Contains_cons (a : ascii) (s sep : string) :
  Contains (String a s) sep
  = if HasPrefix (String a s) sep then true else Contains s sep.
Proof. reflexivity. Qed.

Lemma Contains_iff (s sep : string) :
  Contains s sep = true <-> exists m, occurs_at sep s m = true.
Proof.
  induction s as [|a s IH].
  - rewrite Contains_nil. split.
    + intros H. now exists 0.
    + intros [m Hm]. now rewrite occurs_at_nil in Hm.
  - rewrite Contains_cons.
    destruct (HasPrefix (String a s) sep) eqn:E.
    + split; [intros _; now exists 0 | reflexivity].
    + rewrite IH. split; intros [m Hm].
      * now exists (S m).
      * destruct m as [|m]; [rewrite occurs_at_0 in Hm; congruence|].
        now exists m.
Qed.

Lemma Contains_false (s sep : string) (m : nat) :
  Contains s sep = false -> occurs_at sep s m = false.
Proof.
  intros H. destruct (occurs_at sep s m) eqn:E; [|reflexivity].
  assert (Contains s sep = true) by (apply Contains_iff; now exists m).
  congruence.
Qed.

Lemma occurs_at_suffix (s p q : string) (m : nat) :
  occurs_at (p ++ q) s m = true ->
  occurs_at q s (m + String.length p) = true.
Proof.
  revert m. induction s as [|a s IH]; intros m Hm.
  - rewrite occurs_at_nil in Hm. apply HasPrefix_iff in Hm.
    destruct Hm as [r Hr]. destruct p; [|discriminate].
    destruct q; [|discriminate]. now rewrite occurs_at_nil.
  - destruct m as [|m].
    + rewrite occurs_at_0 in Hm. apply HasPrefix_iff in Hm.
      destruct Hm as [r Hr]. rewrite Hr, append_assoc.
      unfold occurs_at. simpl plus. rewrite drop_app_length.
      apply HasPrefix_app.
    + rewrite occurs_at_S in Hm. simpl plus. rewrite occurs_at_S.
      now apply IH.
Qed.

(** An occurrence of [p ++ q] holds an occurrence of [q]. *)
Lemma Contains_suffix (s p q : string) :
  Contains s (p ++ q) = true -> Contains s q = true.
Proof.
  rewrite !Contains_iff. intros [m Hm].
  exists (m + String.length p). now apply occurs_at_suffix.
Qed.

Lemma Cut_nil (sep : string) :
  Cut EmptyString sep
  = if HasPrefix EmptyString sep
    then Some (EmptyString, drop (String.length sep) EmptyString) else None.
Proof. reflexivity. Qed.

Lemma Cut_cons (a : ascii) (s sep : string) :
  Cut (String a s) sep
  = if HasPrefix (String a s) sep
    then Some (EmptyString, drop (String.length sep) (String a s))
    else match Cut s sep with
         | Some (before, after) => Some (String a before, after)
         | None => None
         end.
Proof. reflexivity. Qed.

Lemma Cut_None (s sep : string) :
  Cut s sep = None <-> Contains s sep = false.
Proof.
  induction s as [|a s IH].
  - rewrite Cut_nil, Contains_nil.
    destruct (HasPrefix EmptyString sep); split; congruence.
  - rewrite Cut_cons, Contains_cons.
    destruct (HasPrefix (String a s) sep); [split; congruence|].
    rewrite <- IH. destruct (Cut s sep) as [[b r]|]; split; congruence.
Qed.

(** [Cut] splits at the first occurrence of the separator. *)
Lemma Cut_Some (s sep before after : string) :
  Cut s sep = Some (before, after) ->
  s = before ++ sep ++ after
  /\ forall m, m < String.length before -> occurs_at sep s m = false.
Proof.
  revert before. induction s as [|a s IH]; intros before.
  - rewrite Cut_nil. destruct (HasPrefix EmptyString sep) eqn:E; [|discriminate].
    intros H. injection H as <- <-. split.
    + apply HasPrefix_iff in E. destruct E as [r Hr].
      destruct sep; [reflexivity | discriminate].
    + simpl. intros m Hm. lia.
  - rewrite Cut_cons. destruct (HasPrefix (String a s) sep) eqn:E.
    + intros H. injection H as <- <-. split.
      * apply HasPrefix_iff in E. destruct E as [r Hr].
        simpl append. rewrite Hr at 2. rewrite drop_app_length. exact Hr.
      * simpl. intros m Hm. lia.
    + destruct (Cut s sep) as [[b r]|] eqn:EC; [|discriminate].
      intros H. injection H as <- <-.
      destruct (IH b eq_refl) as [Hs Hfirst]. split.
      * simpl. now rewrite <- Hs.
      * intros [|m] Hm; [exact E|].
        rewrite occurs_at_S. apply Hfirst. simpl in Hm. lia.
Qed.

Lemma Contains_Cut (s sep : string) :
  Contains s sep = true -> exists before after, Cut s sep = Some (before, after).
Proof.
  intros H. destruct (Cut s sep) as [[b a]|] eqn:E; [now exists b, a|].
  apply Cut_None in E. congruence.
Qed.

End StringFacts.

(* ================================================================== *)
(** ** The link form: what [extractPlaylistID] returns                  *)
(* ================================================================== *)

Section LinkForm.

Local Open Scope nat_scope.

Lemma HasPrefix_nil_false (sep : string) :
  0 < String.length sep -> HasPrefix EmptyString sep = false.
Proof. destruct sep; simpl; [lia | reflexivity]. Qed.

Lemma SplitLoop_first (rounds : nat) (s sep : string) :
  0 < String.length sep -> String.length s <= rounds ->
  nth 0 (SplitLoop rounds s sep) EmptyString
  = match Cut s sep with Some (before, _) => before | None => s end.
Proof.
  intros Hsep Hlen. destruct rounds as [|rounds].
  - destruct s; [|simpl in Hlen; lia].
    rewrite Cut_nil, HasPrefix_nil_false by assumption. reflexivity.
  - simpl. now destruct (Cut s sep) as [[b a]|].
Qed.

Lemma Split_first (s sep : string) :
  0 < String.length sep ->
  nth 0 (Split s sep) EmptyString
  = match Cut s sep with Some (before, _) => before | None => s end.
Proof. intros Hsep. apply SplitLoop_first; [assumption | lia]. Qed.

Lemma Split_second (s sep before after : string) :
  0 < String.length sep ->
  Cut s sep = Some (before, after) ->
  (1 <? len (Split s sep))%Z = true
  /\ nth 1 (Split s sep) EmptyString
     = match Cut after sep with Some (seg, _) => seg | None => after end.
Proof.
  intros Hsep HC. destruct (Cut_Some _ _ _ _ HC) as [Hs _].
  assert (Hlen : String.length s
                 = String.length before + String.length sep + String.length after)
    by (rewrite Hs, !length_append; lia).
  unfold Split. destruct (String.length s) as [|k] eqn:Ek; [lia|].
  simpl SplitLoop. rewrite HC. split.
  - unfold len. simpl List.length.
    destruct (SplitLoop k after sep) eqn:E.
    + destruct k; simpl in E; [discriminate|].
      destruct (Cut after sep) as [[? ?]|]; discriminate.
    + simpl List.length. apply Z.ltb_lt. lia.
  - simpl nth. apply SplitLoop_first; [assumption | lia].
Qed.

Lemma question_window (s x : string) (m : nat) :
  m < String.length s -> occurs_at "?" (s ++ x) m = occurs_at "?" s m.
Proof. intros Hm. apply occurs_at_app. simpl. lia. Qed.

Lemma extractPlaylistID_link (input : string) :
  Contains input playlistMarker = true ->
  link_segment input (extractPlaylistID input).
Proof.
  intros Hmark. unfold extractPlaylistID. rewrite Hmark.
  assert (Hsep : Contains input "/playlist/" = true)
    by (apply (Contains_suffix input "spotify.com" "/playlist/"); exact Hmark).
  destruct (Contains_Cut _ _ Hsep) as (pre & after & HC).
  assert (Hpos : 0 < String.length "/playlist/") by (simpl; lia).
  destruct (Split_second _ _ _ _ Hpos HC) as [Hlen Hnth].
  rewrite Hlen, Hnth. rewrite Split_first by (simpl; lia).
  destruct (Cut_Some _ _ _ _ HC) as [Hin Hfirst].
  exists pre.
  destruct (Cut after "/playlist/") as [[seg rest2]|] eqn:HC2.
  - destruct (Cut_Some _ _ _ _ HC2) as [Hafter Hfirst2].
    destruct (Cut seg "?") as [[id rest3]|] eqn:HC3.
    + destruct (Cut_Some _ _ _ _ HC3) as [Hseg Hfirst3].
      exists ("?" ++ rest3 ++ "/playlist/" ++ rest2).
      assert (Heq : id ++ "?" ++ rest3 ++ "/playlist/" ++ rest2 = after).
      { rewrite Hafter, Hseg. now rewrite !append_assoc. }
      rewrite Heq. repeat split.
      * exact Hin.
      * exact Hfirst.
      * rewrite Hafter. rewrite question_window.
        -- now apply Hfirst3.
        -- rewrite Hseg, length_append. lia.
      * apply Hfirst2. rewrite Hseg, length_append. lia.
      * right. left. apply HasPrefix_app.
    + exists ("/playlist/" ++ rest2). rewrite <- Hafter. repeat split.
      * exact Hin.
      * exact Hfirst.
      * rewrite Hafter. rewrite question_window by assumption.
        apply Contains_false. now apply Cut_None.
      * now apply Hfirst2.
      * right. right. apply HasPrefix_app.
  - destruct (Cut after "?") as [[id rest3]|] eqn:HC3.
    + destruct (Cut_Some _ _ _ _ HC3) as [Hafter Hfirst3].
      exists ("?" ++ rest3). rewrite <- Hafter. repeat split.
      * exact Hin.
      * exact Hfirst.
      * now apply Hfirst3.
      * apply Contains_false. now apply Cut_None.
      * right. left. apply HasPrefix_app.
    + exists EmptyString. rewrite append_nil_r. repeat split.
      * exact Hin.
      * exact Hfirst.
      * apply Contains_false. now apply Cut_None.
      * apply Contains_false. now apply Cut_None.
      * now left.
Qed.

End LinkForm.

(* ================================================================== *)
(** ** Laws of the effect monad                                         *)
(* ================================================================== *)

Section MonadLaws.

Context {A B : Type}.

Lemma bind_ret (a : A) (k : A -> M B) : bind (ret a) k = k a.
Proof. unfold bind, ret. now destruct (k a). Qed.

Lemma bind_ext (m : M A) (k k' : A -> M B) :
  (forall a, k a = k' a) -> bind m k = bind m k'.
Proof.
  intros H. destruct m as [[a| | |] t]; simpl; [|reflexivity..].
  now rewrite H.
Qed.

Lemma bind_done (a : A) (t : list Event) (k : A -> M B) :
  bind (Done a, t) k = (outcome (k a), (t ++ trace (k a))%list).
Proof. unfold bind. now destruct (k a). Qed.

Lemma silent_bind (m : M A) (k : A -> M B) :
  silent (bind m k) = bind (silent m) (fun a => silent (k a)).
Proof.
  destruct m as [[a| | |] t]; try reflexivity.
  unfold silent at 2. simpl outcome. simpl trace.
  rewrite !bind_done. unfold silent. simpl.
  now rewrite filter_app.
Qed.

End MonadLaws.

Lemma silent_ret {A : Type} (a : A) : silent (ret a) = ret a.
Proof. reflexivity. Qed.

Lemma silent_stdout (text : string) : silent (emit (Stdout text)) = ret tt.
Proof. reflexivity. Qed.

Lemma silent_callCurrentUsersPlaylists (client : Client) (limit offset : Z) :
  silent (callCurrentUsersPlaylists client limit offset)
  = callCurrentUsersPlaylists client limit offset.
Proof. reflexivity. Qed.

(* ================================================================== *)
(** ** The playlist resolver                                            *)
(* ================================================================== *)

Section Resolver.

Variable EqualFold : string -> string -> bool.

Lemma silent_scanPage (input : string) (playlists : list SimplePlaylist) :
  silent (scanPage EqualFold input playlists)
  = ret (scanPageQuiet EqualFold input playlists).
Proof.
  induction playlists as [|playlist rest IH]; [reflexivity|].
  simpl. destruct (EqualFold (PlaylistName playlist) input); [reflexivity|].
  destruct (String.eqb (PlaylistID playlist) input); [reflexivity | exact IH].
Qed.

Lemma pageLoopQuiet_S (fuel : nat) (client : Client) (input : string)
      (limit offset : Z) :
  pageLoopQuiet EqualFold (S fuel) client input limit offset
  = (r <- callCurrentUsersPlaylists client limit offset ;;
     match r with
     | Err err => ret (Some (Err (ErrorWrap "failed to get playlists: " err)))
     | Ok playlists =>
         match scanPageQuiet EqualFold input playlists with
         | Some id => ret (Some (Ok id))
         | None =>
             if len playlists <? limit then ret None
             else pageLoopQuiet EqualFold fuel client input limit
                                (int_add offset limit)
         end
     end).
Proof. reflexivity. Qed.

Lemma pageLoop_S (fuel : nat) (client : Client) (input : string)
      (limit offset : Z) :
  pageLoop EqualFold (S fuel) client input limit offset
  = (r <- callCurrentUsersPlaylists client limit offset ;;
     match r with
     | Err err => ret (Some (Err (ErrorWrap "failed to get playlists: " err)))
     | Ok playlists =>
         found <- scanPage EqualFold input playlists ;;
         match found with
         | Some id => ret (Some (Ok id))
         | None =>
             if len playlists <? limit then ret None
             else pageLoop EqualFold fuel client input limit
                           (int_add offset limit)
         end
     end).
Proof. reflexivity. Qed.

Lemma silent_pageLoop (fuel : nat) (client : Client) (input : string)
      (limit offset : Z) :
  silent (pageLoop EqualFold fuel client input limit offset)
  = pageLoopQuiet EqualFold fuel client input limit offset.
Proof.
  revert offset. induction fuel as [|fuel IH]; intros offset; [reflexivity|].
  rewrite pageLoop_S, pageLoopQuiet_S.
  rewrite silent_bind, silent_callCurrentUsersPlaylists.
  apply bind_ext. intros [playlists|err]; [|reflexivity].
  rewrite silent_bind, silent_scanPage, bind_ret.
  destruct (scanPageQuiet EqualFold input playlists); [reflexivity|].
  destruct (len playlists <? limit); [reflexivity | apply IH].
Qed.

(** C3.  The narrated resolver [resolvePlaylistID] and the silent
    resolver [resolvePlaylistIDQuiet] agree for every input, every lister
    and every loop budget: they end the same way (the same resolved ID,
    the same error, or both still paging), and once the text printed to
    standard output is put aside the narrated run is the silent run,
    lister request for lister request. *)
Theorem resolvePlaylistID_silent_eq_Quiet
        (fuel : nat) (client : Client) (input : string) :
  silent (resolvePlaylistID EqualFold fuel client input)
  = resolvePlaylistIDQuiet EqualFold fuel client input
  /\ outcome (resolvePlaylistID EqualFold fuel client input)
     = outcome (resolvePlaylistIDQuiet EqualFold fuel client input).
Proof.
  assert (H : silent (resolvePlaylistID EqualFold fuel client input)
              = resolvePlaylistIDQuiet EqualFold fuel client input).
  { unfold resolvePlaylistID, resolvePlaylistIDQuiet.
    destruct (Contains input playlistMarker); [reflexivity|].
    destruct ((strlen input =? 22) && negb (Contains input " "));
      [reflexivity|].
    rewrite silent_bind, silent_stdout, bind_ret.
    rewrite silent_bind, silent_pageLoop.
    apply bind_ext. intros [returned|]; [reflexivity|].
    now rewrite silent_bind, silent_stdout, bind_ret. }
  split; [exact H|].
  rewrite <- H. reflexivity.
Qed.

(** C4, with the length counted in bytes.  An input without the link
    marker that is exactly 22 bytes long ([len(input) == 22], the length Go
    measures; 22 characters when the text is ASCII) and holds no space is
    returned unchanged, and the run makes no call at all: the lister is
    never asked, whatever playlists it would have listed. *)
Theorem resolvePlaylistIDQuiet_bare_id
        (fuel : nat) (client : Client) (input : string) :
  Contains input playlistMarker = false ->
  String.length input = 22%nat ->
  Contains input " " = false ->
  resolvePlaylistIDQuiet EqualFold fuel client input = (Done (Ok input), []).
Proof.
  intros Hlink Hlen Hspace. unfold resolvePlaylistIDQuiet, strlen.
  now rewrite Hlink, Hlen, Hspace.
Qed.

(** C5, as amended.  For an input that contains the link marker the
    resolver returns, without any call, the text that starts right after
    the first ["/playlist/"] of the input and stops before the first
    ["?"] or the next ["/playlist/"] that follows (at the end of the
    input if neither follows); length and bytes are not examined. *)
Theorem resolvePlaylistIDQuiet_link
        (fuel : nat) (client : Client) (input : string) :
  Contains input playlistMarker = true ->
  exists id,
    resolvePlaylistIDQuiet EqualFold fuel client input = (Done (Ok id), [])
    /\ link_segment input id.
Proof.
  intros Hlink. exists (extractPlaylistID input). split.
  - unfold resolvePlaylistIDQuiet. now rewrite Hlink.
  - now apply extractPlaylistID_link.
Qed.

End Resolver.

(* ================================================================== *)
(** ** Paging through the lister                                        *)
(* ================================================================== *)

Lemma int_wrap_id (z : Z) : int_min <= z <= int_max -> int_wrap z = z.
Proof.
  unfold int_min, int_max, int_wrap.
  change (2 ^ 63) with 9223372036854775808.
  change (2 ^ 64) with 18446744073709551616.
  intros H. rewrite Z.mod_small; lia.
Qed.

Lemma int_wrap_range (z : Z) : int_min <= int_wrap z <= int_max.
Proof.
  unfold int_min, int_max, int_wrap.
  change (2 ^ 63) with 9223372036854775808.
  change (2 ^ 64) with 18446744073709551616.
  pose proof (Z.mod_pos_bound (z + 9223372036854775808) 18446744073709551616).
  lia.
Qed.

Lemma int_max_value : int_max = 9223372036854775807.
Proof. reflexivity. Qed.

Lemma int_min_value : int_min = -9223372036854775808.
Proof. reflexivity. Qed.

Lemma page_requests_from_S (k n : nat) :
  page_requests_from k (S n)
  = CallCurrentUsersPlaylists 50 (50 * Z.of_nat k) :: page_requests_from (S k) n.
Proof. reflexivity. Qed.

Lemma serves_nth (client : Client) (pages : list (list SimplePlaylist)) :
  serves client pages ->
  forall i page, nth_error pages i = Some page ->
                 CurrentUsersPlaylists client 50 (50 * Z.of_nat i) = Ok page.
Proof.
  unfold serves. intros H i page Hi.
  assert (Hlt : (i < List.length pages)%nat)
    by (apply nth_error_Some; congruence).
  assert (Hnth : nth_error (map (fun i => CurrentUsersPlaylists client 50
                                             (50 * Z.of_nat i))
                                (seq 0 (List.length pages))) i
                 = nth_error (map Ok pages) i) by now rewrite H.
  rewrite !nth_error_map, Hi in Hnth.
  rewrite nth_error_seq in Hnth.
  destruct (Nat.ltb_spec i (List.length pages)); [|lia].
  simpl in Hnth. now injection Hnth.
Qed.

Lemma bind_callCurrentUsersPlaylists {B : Type} (client : Client)
      (limit offset : Z) (k : result (list SimplePlaylist) -> M B) :
  bind (callCurrentUsersPlaylists client limit offset) k
  = (outcome (k (CurrentUsersPlaylists client limit offset)),
     CallCurrentUsersPlaylists limit offset
       :: trace (k (CurrentUsersPlaylists client limit offset))).
Proof.
  unfold callCurrentUsersPlaylists, emit, ret, bind, outcome, trace.
  now destruct (k (CurrentUsersPlaylists client limit offset)).
Qed.

Section Paging.

Variable EqualFold : string -> string -> bool.
Variable client : Client.
Variable input : string.

Local Open Scope list_scope.

Lemma scanPageQuiet_find (page : list SimplePlaylist) :
  scanPageQuiet EqualFold input page
  = option_map PlaylistID (find (entry_matches EqualFold input) page).
Proof.
  induction page as [|entry rest IH]; [reflexivity|].
  simpl. unfold entry_matches at 1.
  destruct (EqualFold (PlaylistName entry) input); [reflexivity|].
  simpl orb. destruct (String.eqb (PlaylistID entry) input) eqn:E.
  - apply String.eqb_eq in E. simpl. now rewrite E.
  - exact IH.
Qed.

Lemma find_existsb {A : Type} (p : A -> bool) (l : list A) :
  existsb p l = match find p l with Some _ => true | None => false end.
Proof.
  induction l as [|x l IH]; [reflexivity|].
  simpl. now destruct (p x).
Qed.

Lemma find_app_none {A : Type} (p : A -> bool) (l l' : list A) :
  find p l = None -> find p (l ++ l') = find p l'.
Proof.
  induction l as [|x l IH]; [reflexivity|].
  simpl. destruct (p x); [discriminate | exact IH].
Qed.

Lemma find_app_some {A : Type} (p : A -> bool) (l l' : list A) (x : A) :
  find p l = Some x -> find p (l ++ l') = Some x.
Proof.
  induction l as [|y l IH]; [discriminate|].
  simpl. destruct (p y); [trivial | exact IH].
Qed.

(** The paging loop over pages [full ++ [last]] served from page [k] on. *)
Lemma pageLoopQuiet_pages (last : list SimplePlaylist) :
  (len last < 50 \/ existsb (entry_matches EqualFold input) last = true) ->
  forall (full : list (list SimplePlaylist)) (fuel k : nat),
    (forall i page, nth_error (full ++ [last]) i = Some page ->
                    CurrentUsersPlaylists client 50 (50 * Z.of_nat (k + i))
                    = Ok page) ->
    Forall (fun page => 50 <= len page) full ->
    (List.length full < fuel)%nat ->
    50 * Z.of_nat (k + List.length full) <= int_max ->
    pageLoopQuiet EqualFold fuel client input 50 (50 * Z.of_nat k)
    = (Done (option_map (fun entry => Ok (PlaylistID entry))
                        (find (entry_matches EqualFold input)
                              (List.concat (full ++ [last])))),
       page_requests_from k (pages_read EqualFold input (full ++ [last]))).
Proof.
  intros Hlast full.
  induction full as [|page full IH]; intros fuel k Hserve Hfull Hfuel Hmax.
  - destruct fuel as [|fuel]; [simpl in Hfuel; lia|].
    pose proof (Hserve 0%nat last eq_refl) as H0.
    rewrite Nat.add_0_r in H0.
    rewrite pageLoopQuiet_S, bind_callCurrentUsersPlaylists, H0.
    cbv beta iota. rewrite scanPageQuiet_find.
    simpl app. simpl List.concat. rewrite app_nil_r. simpl pages_read.
    rewrite find_existsb in Hlast.
    destruct (find (entry_matches EqualFold input) last) as [entry|] eqn:E.
    + now destruct (existsb (entry_matches EqualFold input) last).
    + destruct Hlast as [Hshort|]; [|discriminate].
      apply Z.ltb_lt in Hshort. simpl option_map. rewrite Hshort.
      now destruct (existsb (entry_matches EqualFold input) last).
  - destruct fuel as [|fuel]; [simpl in Hfuel; lia|].
    pose proof (Hserve 0%nat page eq_refl) as H0.
    rewrite Nat.add_0_r in H0.
    inversion Hfull as [|? ? Hpage Hrest]; subst.
    rewrite pageLoopQuiet_S, bind_callCurrentUsersPlaylists, H0.
    cbv beta iota. rewrite scanPageQuiet_find.
    simpl app. simpl List.concat. simpl pages_read. rewrite find_existsb.
    destruct (find (entry_matches EqualFold input) page) as [entry|] eqn:E.
    + rewrite (find_app_some _ _ _ _ E). reflexivity.
    + rewrite (find_app_none _ _ _ E). simpl option_map.
      assert (Hlen : (len page <? 50) = false) by (apply Z.ltb_ge; exact Hpage).
      rewrite Hlen.
      assert (Hk : int_add (50 * Z.of_nat k) 50 = 50 * Z.of_nat (S k)).
      { unfold int_add. rewrite int_wrap_id.
        - lia.
        - rewrite int_min_value. simpl List.length in Hmax. lia. }
      rewrite Hk.
      rewrite (IH fuel (S k)).
      * reflexivity.
      * intros i pg Hi. specialize (Hserve (S i) pg Hi).
        now replace (S k + i)%nat with (k + S i)%nat by lia.
      * exact Hrest.
      * simpl in Hfuel. lia.
      * simpl List.length in Hmax.
        now replace (S k + List.length full)%nat
          with (k + S (List.length full))%nat by lia.
Qed.

(** The paging loop when pages [k .. k + length full - 1] are full and
    hold no match and the fetch of the next page fails. *)
Lemma pageLoopQuiet_error (err : error) :
  forall (full : list (list SimplePlaylist)) (fuel k : nat),
    (forall i page, nth_error full i = Some page ->
                    CurrentUsersPlaylists client 50 (50 * Z.of_nat (k + i))
                    = Ok page) ->
    Forall (fun page => 50 <= len page
                        /\ existsb (entry_matches EqualFold input) page = false)
           full ->
    CurrentUsersPlaylists client 50 (50 * Z.of_nat (k + List.length full))
    = Err err ->
    (List.length full < fuel)%nat ->
    50 * Z.of_nat (k + List.length full) <= int_max ->
    pageLoopQuiet EqualFold fuel client input 50 (50 * Z.of_nat k)
    = (Done (Some (Err (ErrorWrap "failed to get playlists: " err))),
       page_requests_from k (S (List.length full))).
Proof.
  induction full as [|page full IH];
    intros fuel k Hserve Hfull Herr Hfuel Hmax.
  - destruct fuel as [|fuel]; [simpl in Hfuel; lia|].
    simpl List.length in Herr. rewrite Nat.add_0_r in Herr.
    now rewrite pageLoopQuiet_S, bind_callCurrentUsersPlaylists, Herr.
  - destruct fuel as [|fuel]; [simpl in Hfuel; lia|].
    pose proof (Hserve 0%nat page eq_refl) as H0.
    rewrite Nat.add_0_r in H0.
    inversion Hfull as [|? ? [Hpage Hnone] Hrest]; subst.
    rewrite find_existsb in Hnone.
    rewrite pageLoopQuiet_S, bind_callCurrentUsersPlaylists, H0.
    cbv beta iota. rewrite scanPageQuiet_find.
    destruct (find (entry_matches EqualFold input) page); [discriminate|].
    simpl option_map.
    assert (Hlen : (len page <? 50) = false) by (apply Z.ltb_ge; exact Hpage).
    rewrite Hlen.
    assert (Hk : int_add (50 * Z.of_nat k) 50 = 50 * Z.of_nat (S k)).
    { unfold int_add. rewrite int_wrap_id.
      - lia.
      - rewrite int_min_value. simpl List.length in Hmax. lia. }
    rewrite Hk.
    rewrite (IH fuel (S k)).
    + reflexivity.
    + intros i pg Hi. specialize (Hserve (S i) pg Hi).
      now replace (S k + i)%nat with (k + S i)%nat by lia.
    + exact Hrest.
    + simpl List.length in Herr.
      now replace (S k + List.length full)%nat
        with (k + S (List.length full))%nat by lia.
    + simpl in Hfuel. lia.
    + simpl List.length in Hmax.
      now replace (S k + List.length full)%nat
        with (k + S (List.length full))%nat by lia.
Qed.

End Paging.

Section NameSearchClaims.

Variable EqualFold : string -> string -> bool.

Local Open Scope list_scope.

Lemma not_bare_id (input : string) :
  String.length input <> 22%nat \/ Contains input " " = true ->
  (strlen input =? 22) && negb (Contains input " ") = false.
Proof.
  intros [Hlen|Hspace].
  - unfold strlen. destruct (Z.eqb_spec (Z.of_nat (String.length input)) 22);
      [lia | reflexivity].
  - rewrite Hspace. apply andb_false_r.
Qed.

(** C6, with the length counted in bytes.  For an input that is neither
    a link nor a bare ID (22 bytes by [len] and no space), let the
    lister serve the pages [full ++ [last]] at offsets 0, 50, 100, ...
    (limit 50), every page before the last holding at least 50 entries,
    the last one being short or holding a match.  Then the resolver
    returns the ID of the first entry, pages taken in order and entries in
    order within a page, whose name equals the input under case folding or
    whose ID equals the input; with no such entry it returns the input
    itself, without error.  Its requests are those for the pages up to the
    one holding that entry, or for all pages. *)
Theorem resolvePlaylistIDQuiet_name_search
        (fuel : nat) (client : Client) (input : string)
        (full : list (list SimplePlaylist)) (last : list SimplePlaylist) :
  Contains input playlistMarker = false ->
  String.length input <> 22%nat \/ Contains input " " = true ->
  serves client (full ++ [last]) ->
  Forall (fun page => 50 <= len page) full ->
  len last < 50 \/ existsb (entry_matches EqualFold input) last = true ->
  (List.length full < fuel)%nat ->
  50 * len full <= int_max ->
  resolvePlaylistIDQuiet EqualFold fuel client input
  = (Done (Ok (match find (entry_matches EqualFold input)
                          (List.concat (full ++ [last])) with
               | Some entry => PlaylistID entry
               | None => input
               end)),
     page_requests (pages_read EqualFold input (full ++ [last]))).
Proof.
  intros Hlink Hbare Hserve Hfull Hlast Hfuel Hmax.
  unfold resolvePlaylistIDQuiet.
  rewrite Hlink, (not_bare_id _ Hbare).
  pose proof (pageLoopQuiet_pages EqualFold client input last Hlast
                                  full fuel 0%nat) as Hloop.
  change (50 * Z.of_nat 0) with 0 in Hloop.
  cbv zeta. rewrite Hloop;
    [| exact (serves_nth _ _ Hserve) | exact Hfull | exact Hfuel | exact Hmax].
  rewrite bind_done. unfold page_requests.
  destruct (find (entry_matches EqualFold input) (List.concat (full ++ [last])));
    simpl; now rewrite app_nil_r.
Qed.

(** C7.  For an input that is neither a link nor a bare ID, when the
    pages before page [k] were full and held no match (so that page [k]
    is asked for) and the fetch of page [k] fails with [err], the resolver
    returns [err] wrapped as "failed to get playlists: ..." and nothing
    else: the result is not the input, and the failed request is the last
    one made. *)
Theorem resolvePlaylistIDQuiet_lister_error
        (fuel : nat) (client : Client) (input : string)
        (full : list (list SimplePlaylist)) (err : error) :
  Contains input playlistMarker = false ->
  String.length input <> 22%nat \/ Contains input " " = true ->
  serves client full ->
  Forall (fun page => 50 <= len page
                      /\ existsb (entry_matches EqualFold input) page = false)
         full ->
  CurrentUsersPlaylists client 50 (50 * len full) = Err err ->
  (List.length full < fuel)%nat ->
  50 * len full <= int_max ->
  resolvePlaylistIDQuiet EqualFold fuel client input
  = (Done (Err (ErrorWrap "failed to get playlists: " err)),
     page_requests (S (List.length full)))
  /\ Unwrap (ErrorWrap "failed to get playlists: " err) = Some err.
Proof.
  intros Hlink Hbare Hserve Hfull Herr Hfuel Hmax.
  split; [|reflexivity].
  unfold resolvePlaylistIDQuiet.
  rewrite Hlink, (not_bare_id _ Hbare).
  pose proof (pageLoopQuiet_error EqualFold client input err
                                  full fuel 0%nat) as Hloop.
  change (50 * Z.of_nat 0) with 0 in Hloop.
  cbv zeta. rewrite Hloop;
    [| exact (serves_nth _ _ Hserve) | exact Hfull | exact Herr | exact Hfuel
     | exact Hmax].
  rewrite bind_done. unfold page_requests. simpl outcome. simpl trace.
  now rewrite app_nil_r.
Qed.

End NameSearchClaims.

(* ================================================================== *)
(** ** Playback                                                         *)
(* ================================================================== *)

Lemma bind_emit {B : Type} (e : Event) (k : unit -> M B) :
  bind (emit e) k = (outcome (k tt), e :: trace (k tt)).
Proof. unfold emit, bind, outcome, trace. now destruct (k tt). Qed.

Lemma bind_emit_ret {A B : Type} (e : Event) (x : A) (k : A -> M B) :
  bind (bind (emit e) (fun _ => ret x)) k = (outcome (k x), e :: trace (k x)).
Proof. unfold emit, ret, bind, outcome, trace. now destruct (k x). Qed.

Lemma bind_element {A B : Type} (l : list A) (i : nat) (x : A) (k : A -> M B) :
  nth_error l i = Some x -> bind (element l i) k = k x.
Proof. intros H. unfold element. rewrite H. apply bind_ret. Qed.

Lemma len_nil_iff {A : Type} (l : list A) : (len l =? 0) = true <-> l = [].
Proof.
  unfold len. destruct l; simpl; split; try reflexivity; try discriminate.
Qed.

Section Playback.

Variable EqualFold : string -> string -> bool.

Local Open Scope list_scope.

(** C8.  With a session in place and an empty device list, [PlayPlaylist]
    returns the error "no Spotify Connect devices found"; fetching the
    device list is the only call of the run: the playlist is not
    resolved, its metadata is not fetched, no playback command is sent. *)
Theorem PlayPlaylist_no_devices
        (fuel : nat) (client : Client) (draw : Z)
        (deviceName playlistInput : string) (shuffle : bool) :
  PlayerDevices client = Ok [] ->
  PlayPlaylist EqualFold fuel (Some client) draw deviceName playlistInput shuffle
  = (Done (Err (ErrorNew "no Spotify Connect devices found")),
     [CallPlayerDevices]).
Proof.
  intros Hdev. unfold PlayPlaylist, callPlayerDevices.
  rewrite bind_emit_ret, Hdev. reflexivity.
Qed.

(** The steps of [PlayPlaylist] up to the fetched playlist. *)
Lemma PlayPlaylist_prefix
      (fuel : nat) (client : Client) (draw : Z)
      (deviceName playlistInput : string) (shuffle : bool)
      (devices : list PlayerDevice) (target : PlayerDevice)
      (playlistID : string) (calls : list Event) (playlist : FullPlaylist)
      (rest : M (result string)) :
  PlayerDevices client = Ok devices ->
  nth_error devices (targetIndex deviceName devices) = Some target ->
  resolvePlaylistIDQuiet EqualFold fuel client playlistInput
  = (Done (Ok playlistID), calls) ->
  GetPlaylist client playlistID = Ok playlist ->
  rest = (let trackCount := int_wrap (TracksTotal playlist) in
          let opts := mkPlayOptions (Some (DeviceID target))
                        (Some ("spotify:playlist:" ++ playlistID)%string) None in
          if shuffle then
            randomOffset <- Intn draw trackCount ;;
            let opts := mkPlayOptions (OptDeviceID opts)
                          (PlaybackContext opts) (Some randomOffset) in
            err <- callPlayOpt client opts ;;
            match err with
            | Some err =>
                ret (Err (ErrorWrap "failed to start playback: " err))
            | None =>
                emit (Sleep 500) ;;;
                err <- callShuffle client true ;;
                match err with
                | Some err =>
                    emit (Log ("Warning: Failed to enable shuffle: "
                               ++ ErrorText err)%string)
                | None => ret tt
                end ;;;
                ret (Ok ("Now playing " ++ dquote ++ FullName playlist
                         ++ dquote ++ " on " ++ DeviceName target
                         ++ " (shuffle enabled, starting at track "
                         ++ fmt_d (int_add randomOffset 1) ++ " of "
                         ++ fmt_d trackCount ++ ")")%string)
            end
          else
            let startPosition := 0 in
            let opts := mkPlayOptions (OptDeviceID opts)
                          (PlaybackContext opts) (Some startPosition) in
            err <- callPlayOpt client opts ;;
            match err with
            | Some err =>
                ret (Err (ErrorWrap "failed to start playback: " err))
            | None =>
                ret (Ok ("Now playing " ++ dquote ++ FullName playlist
                         ++ dquote ++ " on " ++ DeviceName target
                         ++ " (starting at track 1)")%string)
            end) ->
  PlayPlaylist EqualFold fuel (Some client) draw deviceName playlistInput shuffle
  = (outcome rest,
     CallPlayerDevices :: calls ++ CallGetPlaylist playlistID :: trace rest).
Proof.
  intros Hdev Htarget Hres Hget ->.
  unfold PlayPlaylist, callPlayerDevices.
  rewrite bind_emit_ret, Hdev.
  assert (Hlen : (len devices =? 0) = false).
  { destruct devices; [|reflexivity].
    now destruct (targetIndex deviceName []). }
  rewrite Hlen, (bind_element _ _ _ _ Htarget), Hres, bind_done.
  unfold callGetPlaylist. rewrite bind_emit_ret, Hget.
  reflexivity.
Qed.

(** C9.  A shuffle play that succeeds -- the device list is fetched and
    [target] is the selected device, the playlist resolves to
    [playlistID], its metadata is fetched with track count [n > 0], and
    the remote service accepts the play command -- starts at an offset of
    [[0, n)] and returns the message that names the playlist, the device,
    the track position [offset + 1] and the count [n]. *)
Theorem PlayPlaylist_shuffle_offset_and_message
        (fuel : nat) (client : Client) (draw : Z)
        (deviceName playlistInput : string)
        (devices : list PlayerDevice) (target : PlayerDevice)
        (playlistID : string) (calls : list Event) (playlist : FullPlaylist) :
  PlayerDevices client = Ok devices ->
  nth_error devices (targetIndex deviceName devices) = Some target ->
  resolvePlaylistIDQuiet EqualFold fuel client playlistInput
  = (Done (Ok playlistID), calls) ->
  GetPlaylist client playlistID = Ok playlist ->
  0 < int_wrap (TracksTotal playlist) ->
  PlayOpt client (mkPlayOptions
                    (Some (DeviceID target))
                    (Some ("spotify:playlist:" ++ playlistID)%string)
                    (Some (draw mod int_wrap (TracksTotal playlist)))) = None ->
  exists offset,
    0 <= offset < int_wrap (TracksTotal playlist)
    /\ outcome (PlayPlaylist EqualFold fuel (Some client) draw deviceName
                             playlistInput true)
       = Done (Ok ("Now playing " ++ dquote ++ FullName playlist ++ dquote
                   ++ " on " ++ DeviceName target
                   ++ " (shuffle enabled, starting at track "
                   ++ fmt_d (offset + 1) ++ " of "
                   ++ fmt_d (int_wrap (TracksTotal playlist)) ++ ")")%string)
    /\ In (CallPlayOpt (mkPlayOptions
                          (Some (DeviceID target))
                          (Some ("spotify:playlist:" ++ playlistID)%string)
                          (Some offset)))
          (trace (PlayPlaylist EqualFold fuel (Some client) draw deviceName
                               playlistInput true)).
Proof.
  intros Hdev Htarget Hres Hget Hpos Hplay.
  set (n := int_wrap (TracksTotal playlist)) in *.
  exists (draw mod n).
  assert (Hrange : 0 <= draw mod n < n) by (apply Z.mod_pos_bound; exact Hpos).
  split; [exact Hrange|].
  rewrite (PlayPlaylist_prefix fuel client draw deviceName playlistInput true
             devices target playlistID calls playlist _
             Hdev Htarget Hres Hget eq_refl).
  fold n. cbv zeta. unfold Intn.
  assert (Hn : (n <=? 0) = false) by (apply Z.leb_gt; exact Hpos).
  rewrite Hn, bind_ret. unfold callPlayOpt.
  rewrite bind_emit_ret. cbn [OptDeviceID PlaybackContext]. rewrite Hplay.
  rewrite bind_emit. unfold callShuffle. rewrite bind_emit_ret.
  assert (Hadd : int_add (draw mod n) 1 = draw mod n + 1).
  { unfold int_add. apply int_wrap_id.
    pose proof (int_wrap_range (TracksTotal playlist)) as Hr. fold n in Hr.
    rewrite int_min_value in *. lia. }
  rewrite Hadd.
  destruct (Shuffle client true) as [err|].
  - rewrite bind_emit. cbn [outcome trace fst snd ret]. split; [reflexivity|].
    apply in_cons, in_or_app. right. right. now left.
  - rewrite bind_ret. cbn [outcome trace fst snd ret]. split; [reflexivity|].
    apply in_cons, in_or_app. right. right. now left.
Qed.

(** With shuffle requested and a track count that is not positive,
    [rand.Intn] panics: the run ends there, after the metadata fetch and
    before any play command. *)
Lemma PlayPlaylist_shuffle_no_tracks
      (fuel : nat) (client : Client) (draw : Z)
      (deviceName playlistInput : string)
      (devices : list PlayerDevice) (target : PlayerDevice)
      (playlistID : string) (calls : list Event) (playlist : FullPlaylist) :
  PlayerDevices client = Ok devices ->
  nth_error devices (targetIndex deviceName devices) = Some target ->
  resolvePlaylistIDQuiet EqualFold fuel client playlistInput
  = (Done (Ok playlistID), calls) ->
  GetPlaylist client playlistID = Ok playlist ->
  int_wrap (TracksTotal playlist) <= 0 ->
  PlayPlaylist EqualFold fuel (Some client) draw deviceName playlistInput true
  = (Panic "invalid argument to Intn",
     CallPlayerDevices :: calls ++ [CallGetPlaylist playlistID]).
Proof.
  intros Hdev Htarget Hres Hget Hzero.
  rewrite (PlayPlaylist_prefix fuel client draw deviceName playlistInput true
             devices target playlistID calls playlist _
             Hdev Htarget Hres Hget eq_refl).
  cbv zeta. unfold Intn.
  assert (Hn : (int_wrap (TracksTotal playlist) <=? 0) = true)
    by (apply Z.leb_le; exact Hzero).
  now rewrite Hn.
Qed.

End Playback.

(* ================================================================== *)
(** ** Device selection                                                 *)
(* ================================================================== *)

Section DeviceSelection.

Local Open Scope nat_scope.

Lemma matchesHint_iff (deviceName : string) (device : PlayerDevice) :
  matchesHint deviceName device = true
  <-> deviceName <> EmptyString
      /\ (DeviceName device = deviceName \/ DeviceID device = deviceName).
Proof.
  unfold matchesHint.
  rewrite andb_true_iff, negb_true_iff, orb_true_iff, !String.eqb_eq.
  now rewrite String.eqb_neq.
Qed.

Lemma first_index_shift (p : PlayerDevice -> bool) (device : PlayerDevice)
      (devices : list PlayerDevice) (i : nat) :
  p device = false ->
  first_index p devices i -> first_index p (device :: devices) (S i).
Proof.
  intros Hp [[d [Hd Hpd]] Hbefore]. split.
  - now exists d.
  - intros [|j] d' Hj Hnth.
    + simpl in Hnth. now injection Hnth as <-.
    + simpl in Hnth. apply (Hbefore j); [lia | exact Hnth].
Qed.

Lemma first_index_here (p : PlayerDevice -> bool) (device : PlayerDevice)
      (devices : list PlayerDevice) :
  p device = true -> first_index p (device :: devices) 0.
Proof.
  intros Hp. split; [now exists device | intros j d' Hj; lia].
Qed.

Lemma findTarget_Some (deviceName : string) (devices : list PlayerDevice)
      (k i : nat) :
  findTarget deviceName devices k = Some i ->
  k <= i /\ first_index (matchesHint deviceName) devices (i - k).
Proof.
  revert k. induction devices as [|device rest IH]; intros k; [discriminate|].
  simpl. destruct (matchesHint deviceName device) eqn:E.
  - intros H. injection H as <-. rewrite Nat.sub_diag.
    split; [lia | now apply first_index_here].
  - intros H. destruct (IH _ H) as [Hle Hfirst]. split; [lia|].
    replace (i - k) with (S (i - S k)) by lia.
    now apply first_index_shift.
Qed.

Lemma findTarget_None (deviceName : string) (devices : list PlayerDevice)
      (k : nat) :
  findTarget deviceName devices k = None ->
  forall device, In device devices -> matchesHint deviceName device = false.
Proof.
  revert k. induction devices as [|device rest IH]; intros k H d Hd.
  - destruct Hd.
  - simpl in H. destruct (matchesHint deviceName device) eqn:E; [discriminate|].
    destruct Hd as [<-|Hd]; [exact E | now apply (IH _ H)].
Qed.

Lemma findActive_Some (devices : list PlayerDevice) (k i : nat) :
  findActive devices k = Some i ->
  k <= i /\ first_index Active devices (i - k).
Proof.
  revert k. induction devices as [|device rest IH]; intros k; [discriminate|].
  simpl. destruct (Active device) eqn:E.
  - intros H. injection H as <-. rewrite Nat.sub_diag.
    split; [lia | now apply first_index_here].
  - intros H. destruct (IH _ H) as [Hle Hfirst]. split; [lia|].
    replace (i - k) with (S (i - S k)) by lia.
    now apply first_index_shift.
Qed.

Lemma findActive_None (devices : list PlayerDevice) (k : nat) :
  findActive devices k = None ->
  forall device, In device devices -> Active device = false.
Proof.
  revert k. induction devices as [|device rest IH]; intros k H d Hd.
  - destruct Hd.
  - simpl in H. destruct (Active device) eqn:E; [discriminate|].
    destruct Hd as [<-|Hd]; [exact E | now apply (IH _ H)].
Qed.

(** The selection of [PlayPlaylist] (player.go, lines 40-60): the first
    device whose name or ID is the non-empty hint; failing that, the
    first active device; failing that, the first device. *)
Lemma PlayPlaylist_selects_first (deviceName : string)
      (devices : list PlayerDevice) :
  let i := targetIndex deviceName devices in
  ((exists device, In device devices
                   /\ matchesHint deviceName device = true) ->
   first_index (matchesHint deviceName) devices i)
  /\ ((forall device, In device devices ->
                      matchesHint deviceName device = false) ->
      (exists device, In device devices /\ Active device = true) ->
      first_index Active devices i)
  /\ ((forall device, In device devices ->
                      matchesHint deviceName device = false) ->
      (forall device, In device devices -> Active device = false) ->
      i = 0).
Proof.
  unfold targetIndex.
  destruct (findTarget deviceName devices 0) as [i|] eqn:ET.
  - destruct (findTarget_Some _ _ _ _ ET) as [_ Hfirst].
    rewrite Nat.sub_0_r in Hfirst.
    destruct Hfirst as [[d [Hd Hp]] Hbefore].
    assert (Hin : In d devices) by (eapply nth_error_In; exact Hd).
    split; [|split].
    + intros _. split; [now exists d | exact Hbefore].
    + intros Hnone. rewrite (Hnone d Hin) in Hp. discriminate.
    + intros Hnone. rewrite (Hnone d Hin) in Hp. discriminate.
  - pose proof (findTarget_None _ _ _ ET) as Hnone.
    split; [|split].
    + intros [d [Hin Hp]]. rewrite (Hnone d Hin) in Hp. discriminate.
    + intros _ [d [Hin Ha]].
      destruct (findActive devices 0) as [i|] eqn:EA.
      * destruct (findActive_Some _ _ _ EA) as [_ Hfirst].
        now rewrite Nat.sub_0_r in Hfirst.
      * rewrite (findActive_None _ _ EA d Hin) in Ha. discriminate.
    + intros _ Hinactive.
      destruct (findActive devices 0) as [i|] eqn:EA; [|reflexivity].
      destruct (findActive_Some _ _ _ EA) as [_ [[d [Hd Ha]] _]].
      rewrite (Hinactive d) in Ha; [discriminate|].
      eapply nth_error_In. exact Hd.
Qed.

Lemma listAndFindTarget_cons (deviceName : string) (device : PlayerDevice)
      (rest : list PlayerDevice) (i : nat) (targetDevice : option nat) :
  listAndFindTarget deviceName (device :: rest) i targetDevice
  = (emit (Stdout ("  " ++ fmt_d (int_add (Z.of_nat i) 1) ++ ". "
                   ++ DeviceName device ++ " (" ++ DeviceType device
                   ++ ") - Active: " ++ fmt_bool (Active device) ++ newline)) ;;;
     listAndFindTarget deviceName rest (S i)
                       (if matchesHint deviceName device
                        then Some i else targetDevice)).
Proof. reflexivity. Qed.

(** The selection loop of the command-line [handlePlayPlaylist] (main.go,
    lines 229-234) runs to the end of the list: it ends on the last device
    whose name or ID is the hint, when there is one. *)
Lemma listAndFindTarget_last (deviceName : string)
      (devices : list PlayerDevice) (i : nat) (targetDevice : option nat) :
  exists found prints,
    listAndFindTarget deviceName devices i targetDevice = (Done found, prints)
    /\ ((found = targetDevice
         /\ forall device, In device devices ->
                           matchesHint deviceName device = false)
        \/ exists j, found = Some (i + j)
                     /\ last_index (matchesHint deviceName) devices j).
Proof.
  revert i targetDevice.
  induction devices as [|device rest IH]; intros i targetDevice.
  - exists targetDevice, []%list. split; [reflexivity|].
    left. split; [reflexivity | intros d []].
  - rewrite listAndFindTarget_cons, bind_emit.
    destruct (IH (S i) (if matchesHint deviceName device
                        then Some i else targetDevice))
      as (found & prints & Hrun & Hfound).
    rewrite Hrun. cbn [outcome trace fst snd].
    eexists. eexists. split; [reflexivity|].
    destruct Hfound as [[-> Hnone]|(j & -> & [[d [Hd Hp]] Hafter])].
    + destruct (matchesHint deviceName device) eqn:E.
      * right. exists 0. split; [now rewrite Nat.add_0_r|].
        split; [now exists device|].
        intros [|j] d Hj Hnth; [lia|].
        apply Hnone. eapply nth_error_In. exact Hnth.
      * left. split; [reflexivity|].
        intros d [<-|Hd]; [exact E | now apply Hnone].
    + right. exists (S j). split; [f_equal; lia|].
      split; [now exists d|].
      intros [|j'] d' Hj Hnth; [lia|].
      apply (Hafter j'); [lia | exact Hnth].
Qed.

End DeviceSelection.

(** C1.  Two devices are both named "Den" and the hint is "Den".  The
    command-line [handlePlayPlaylist] sends the play command to the second
    of them, the last match in listed order; [PlayPlaylist] sends it to the
    first. *)
Theorem handlePlayPlaylist_selects_last_match :
  remote_calls (handlePlayPlaylist EqualFoldASCII 1
                  (Examples.mockClient Examples.twoDens 10) 0
                  Examples.twoDens "Den" "37i9dQZF1DXcBWIGoYBM5M" false)
  = [ CallGetPlaylist "37i9dQZF1DXcBWIGoYBM5M";
      CallPlayOpt (mkPlayOptions (Some "den-right")
                                 (Some "spotify:playlist:37i9dQZF1DXcBWIGoYBM5M")
                                 (Some 0)) ]
  /\ remote_calls (PlayPlaylist EqualFoldASCII 1
                     (Some (Examples.mockClient Examples.twoDens 10)) 0
                     "Den" "37i9dQZF1DXcBWIGoYBM5M" false)
     = [ CallPlayerDevices;
         CallGetPlaylist "37i9dQZF1DXcBWIGoYBM5M";
         CallPlayOpt (mkPlayOptions (Some "den-left")
                                    (Some "spotify:playlist:37i9dQZF1DXcBWIGoYBM5M")
                                    (Some 0)) ].
Proof. split; reflexivity. Qed.

(** C2.  Shuffle play of a playlist whose fetched track count is 0:
    whatever the random source draws, [rand.Intn(0)] panics inside
    [PlayPlaylist]; the run ends after the metadata fetch and no play
    command reaches the remote service. *)
Theorem PlayPlaylist_shuffle_zero_tracks_panics (draw : Z) :
  PlayPlaylist EqualFoldASCII 1
               (Some (Examples.mockClient Examples.threeSpeakers 0)) draw
               "Target Speaker" "37i9dQZF1DXcBWIGoYBM5M" true
  = (Panic "invalid argument to Intn",
     [CallPlayerDevices; CallGetPlaylist "37i9dQZF1DXcBWIGoYBM5M"]).
Proof. reflexivity. Qed.

(* ================================================================== *)
(** ** The HTTP play handler                                            *)
(* ================================================================== *)

Section PlayHandler.

Variable EqualFold : string -> string -> bool.

Lemma requestToken_query (r : Request) :
  Get (Query r) "token" <> EmptyString ->
  requestToken r = Get (Query r) "token".
Proof.
  intros H. unfold requestToken.
  apply String.eqb_neq in H. now rewrite H.
Qed.

Lemma requestToken_bearer (r : Request) (token : string) :
  Get (Query r) "token" = EmptyString ->
  Get (Header r) "Authorization" = "Bearer " ++ token ->
  requestToken r = token.
Proof.
  intros Hq Hh. unfold requestToken, TrimPrefix. rewrite Hq, Hh.
  rewrite String.eqb_refl, HasPrefix_app.
  exact (drop_app_length "Bearer " token).
Qed.

(** C10.  [handlePlayRequest] checks the access token before it looks
    at the [playlist] parameter.  A request whose token (the [token]
    query parameter or, without one, the [Authorization] header stripped
    of ["Bearer "]) differs from the configured access token is answered
    401 with the invalid-token envelope and nothing else happens, also
    when the playlist parameter is missing; and an answer with status 400
    is given only to a request whose token equals the configured one. *)
Theorem handlePlayRequest_token_before_playlist
        (fuel : nat) (apiAccessToken : string)
        (spotifyClient : option Client) (draw : Z) (r : Request) :
  (requestToken r <> apiAccessToken ->
   handlePlayRequest EqualFold fuel apiAccessToken spotifyClient draw r
   = (Done (mkResponse 401 "application/json"
              (mkAPIResponse false EmptyString
                             "Invalid or missing access token")),
      []))
  /\ (forall response,
         outcome (handlePlayRequest EqualFold fuel apiAccessToken
                                    spotifyClient draw r)
         = Done response ->
         Code response = 400 ->
         requestToken r = apiAccessToken
         /\ Get (Query r) "playlist" = EmptyString
         /\ Body response
            = mkAPIResponse false EmptyString
                            "playlist parameter is required").
Proof.
  unfold handlePlayRequest. split.
  - intros Hne. apply String.eqb_neq in Hne. now rewrite Hne.
  - intros response.
    destruct (String.eqb (requestToken r) apiAccessToken) eqn:Etok.
    + apply String.eqb_eq in Etok. cbn [negb].
      destruct (String.eqb (Get (Query r) "playlist") EmptyString) eqn:Epl.
      * apply String.eqb_eq in Epl. cbn [outcome ret fst].
        intros H _. injection H as <-. now repeat split.
      * destruct (PlayPlaylist EqualFold fuel spotifyClient draw
                    (Get (Query r) "device") (Get (Query r) "playlist")
                    (String.eqb (ToLower (Get (Query r) "shuffle")) "true"))
          as [[[message|err]| | |] t];
          cbn [bind outcome ret fst]; intros H;
          try discriminate; injection H as <-; discriminate.
    + cbn [negb outcome ret fst]. intros H. injection H as <-. discriminate.
Qed.

End PlayHandler.

(* ================================================================== *)
(** ** The statements at concrete inputs                                *)
(* ================================================================== *)

(** The link of the test suite resolves to its 22-byte ID. *)
Example resolve_share_link :
  resolvePlaylistIDQuiet EqualFoldASCII 0 (Examples.mockClient [] 10)
                         Examples.shareLink
  = (Done (Ok "37i9dQZF1DXcBWIGoYBM5M"), []).
Proof. reflexivity. Qed.

(** A name no entry answers comes back unchanged
    ([TestResolvePlaylistIDQuiet_NotFound]). *)
Example resolve_unknown_playlist :
  resolvePlaylistIDQuiet EqualFoldASCII 1 (Examples.mockClient [] 10)
                         "Unknown Playlist"
  = (Done (Ok "Unknown Playlist"), [CallCurrentUsersPlaylists 50 0]).
Proof. reflexivity. Qed.

(** The hint "Target Speaker" selects the third of three inactive devices
    ([TestPlayPlaylist_DeviceSelection]); without a hint the first one is
    selected. *)
Example select_target_speaker :
  targetIndex "Target Speaker" Examples.threeSpeakers = 2%nat
  /\ targetIndex EmptyString Examples.threeSpeakers = 0%nat.
Proof. split; reflexivity. Qed.

(** A wrong bearer token is answered 401 although the playlist parameter
    is present. *)
Example wrong_bearer_is_unauthorized :
  handlePlayRequest EqualFoldASCII 1 "test-token"
                    (Some (Examples.mockClient Examples.threeSpeakers 10)) 0
                    Examples.wrongBearerRequest
  = (Done (mkResponse 401 "application/json" invalidTokenBody), []).
Proof. reflexivity. Qed.

(** C5, as the claim states it, fails on a link in which ["/playlist/"]
    occurs twice: the text between the first ["/playlist/"] and the first
    ["?"] after it is "abc/playlist/def", and the resolver returns "abc". *)
Lemma resolvePlaylistIDQuiet_link_stops_at_second_segment :
  Contains Examples.doubleSegmentLink playlistMarker = true
  /\ text_up_to_question Examples.doubleSegmentLink = Some "abc/playlist/def"
  /\ resolvePlaylistIDQuiet EqualFoldASCII 0 (Examples.mockClient [] 10)
                            Examples.doubleSegmentLink
     = (Done (Ok "abc"), [])
  /\ outcome (resolvePlaylistIDQuiet EqualFoldASCII 0 (Examples.mockClient [] 10)
                                     Examples.doubleSegmentLink)
     <> Done (Ok "abc/playlist/def").
Proof.
  split; [reflexivity|]. split; [reflexivity|]. split; [reflexivity|].
  discriminate.
Qed.

Lemma resolvePlaylistIDQuiet_bare_id_witness :
  Contains "Summer-Road-Trip-2024!" playlistMarker = false
  /\ String.length "Summer-Road-Trip-2024!" = 22%nat
  /\ Contains "Summer-Road-Trip-2024!" " " = false
  /\ resolvePlaylistIDQuiet EqualFoldASCII 5 Examples.roadTripClient
                            "Summer-Road-Trip-2024!"
     = (Done (Ok "Summer-Road-Trip-2024!"), []).
Proof.
  split; [reflexivity|]. split; [reflexivity|]. split; [reflexivity|].
  apply (resolvePlaylistIDQuiet_bare_id EqualFoldASCII 5 Examples.roadTripClient
           "Summer-Road-Trip-2024!"); reflexivity.
Defined.

Lemma resolvePlaylistIDQuiet_link_witness :
  Contains Examples.shareLink playlistMarker = true
  /\ exists id,
      resolvePlaylistIDQuiet EqualFoldASCII 0 (Examples.mockClient [] 10)
                             Examples.shareLink
      = (Done (Ok id), [])
      /\ link_segment Examples.shareLink id.
Proof.
  split; [reflexivity|].
  apply (resolvePlaylistIDQuiet_link EqualFoldASCII 0 (Examples.mockClient [] 10)
           Examples.shareLink).
  reflexivity.
Defined.

Lemma resolvePlaylistIDQuiet_name_search_witness :
  resolvePlaylistIDQuiet EqualFoldASCII 2 Examples.twoPageClient
                         "my awesome playlist"
  = (Done (Ok "found123playlistid00"),
     [CallCurrentUsersPlaylists 50 0; CallCurrentUsersPlaylists 50 50]).
Proof.
  apply (resolvePlaylistIDQuiet_name_search EqualFoldASCII 2
           Examples.twoPageClient "my awesome playlist"
           [Examples.fillerPage] Examples.awesomePage).
  - reflexivity.
  - left. simpl. lia.
  - reflexivity.
  - constructor; [vm_compute; discriminate | constructor].
  - left. reflexivity.
  - simpl. lia.
  - vm_compute. discriminate.
Defined.

Lemma resolvePlaylistIDQuiet_lister_error_witness :
  resolvePlaylistIDQuiet EqualFoldASCII 2 Examples.failingClient "Some Playlist"
  = (Done (Err (ErrorWrap "failed to get playlists: " (ErrorNew "API error"))),
     [CallCurrentUsersPlaylists 50 0; CallCurrentUsersPlaylists 50 50])
  /\ Unwrap (ErrorWrap "failed to get playlists: " (ErrorNew "API error"))
     = Some (ErrorNew "API error").
Proof.
  apply (resolvePlaylistIDQuiet_lister_error EqualFoldASCII 2
           Examples.failingClient "Some Playlist"
           [Examples.fillerPage] (ErrorNew "API error")).
  - reflexivity.
  - left. simpl. lia.
  - reflexivity.
  - constructor; [split; [vm_compute; discriminate | reflexivity] | constructor].
  - reflexivity.
  - simpl. lia.
  - vm_compute. discriminate.
Defined.

Lemma PlayPlaylist_no_devices_witness :
  PlayerDevices (Examples.mockClient [] 10) = Ok []
  /\ PlayPlaylist EqualFoldASCII 1 (Some (Examples.mockClient [] 10)) 0
                  EmptyString "37i9dQZF1DXcBWIGoYBM5M" false
     = (Done (Err (ErrorNew "no Spotify Connect devices found")),
        [CallPlayerDevices]).
Proof.
  split; [reflexivity|].
  apply (PlayPlaylist_no_devices EqualFoldASCII 1 (Examples.mockClient [] 10) 0
           EmptyString "37i9dQZF1DXcBWIGoYBM5M" false).
  reflexivity.
Defined.

Lemma PlayPlaylist_shuffle_offset_and_message_witness :
  exists offset,
    0 <= offset < 10
    /\ outcome (PlayPlaylist EqualFoldASCII 1
                  (Some (Examples.mockClient Examples.threeSpeakers 10)) 123
                  "Target Speaker" "37i9dQZF1DXcBWIGoYBM5M" true)
       = Done (Ok ("Now playing " ++ dquote ++ "Test Playlist" ++ dquote
                   ++ " on Target Speaker (shuffle enabled, starting at track "
                   ++ fmt_d (offset + 1) ++ " of 10)"))
    /\ In (CallPlayOpt (mkPlayOptions
                          (Some "device3")
                          (Some "spotify:playlist:37i9dQZF1DXcBWIGoYBM5M")
                          (Some offset)))
          (trace (PlayPlaylist EqualFoldASCII 1
                    (Some (Examples.mockClient Examples.threeSpeakers 10)) 123
                    "Target Speaker" "37i9dQZF1DXcBWIGoYBM5M" true)).
Proof.
  apply (PlayPlaylist_shuffle_offset_and_message EqualFoldASCII 1
           (Examples.mockClient Examples.threeSpeakers 10) 123
           "Target Speaker" "37i9dQZF1DXcBWIGoYBM5M"
           Examples.threeSpeakers
           (mkDevice "device3" "Target Speaker" "Speaker" false)
           "37i9dQZF1DXcBWIGoYBM5M" []
           (mkFullPlaylist "Test Playlist" 10)).
  - reflexivity.
  - reflexivity.
  - reflexivity.
  - reflexivity.
  - reflexivity.
  - reflexivity.
Defined.

Lemma handlePlayRequest_token_before_playlist_witness :
  (requestToken Examples.bareRequest <> "test-token"
   /\ handlePlayRequest EqualFoldASCII 1 "test-token" None 0 Examples.bareRequest
      = (Done (mkResponse 401 "application/json"
                 (mkAPIResponse false EmptyString
                                "Invalid or missing access token")),
         []))
  /\ (Code (mkResponse 400 "application/json" missingPlaylistBody) = 400
      /\ requestToken Examples.tokenOnlyRequest = "test-token").
Proof.
  split.
  - split; [discriminate|].
    apply (proj1 (handlePlayRequest_token_before_playlist EqualFoldASCII 1
                    "test-token" None 0 Examples.bareRequest)).
    discriminate.
  - split; [reflexivity|].
    apply (proj2 (handlePlayRequest_token_before_playlist EqualFoldASCII 1
                    "test-token" None 0 Examples.tokenOnlyRequest)
                 (mkResponse 400 "application/json" missingPlaylistBody));
      reflexivity.
Defined.

(* ================================================================== *)
(** ** Links built around an ID                                         *)
(* ================================================================== *)

Section BuiltLinks.

Local Open Scope nat_scope.

Lemma occurs_at_bound (x s : string) (m : nat) :
  0 < String.length x -> occurs_at x s m = true ->
  m + String.length x <= String.length s.
Proof.
  intros Hx. revert m. induction s as [|a s IH]; intros m H.
  - rewrite occurs_at_nil, HasPrefix_nil_false in H by assumption.
    discriminate.
  - destruct m as [|m].
    + rewrite occurs_at_0 in H. apply HasPrefix_iff in H.
      destruct H as [r Hr]. rewrite Hr, length_append. lia.
    + rewrite occurs_at_S in H. apply IH in H. simpl. lia.
Qed.

Lemma occurs_at_length (x s t : string) :
  occurs_at x (s ++ t) (String.length s) = HasPrefix t x.
Proof. unfold occurs_at. now rewrite drop_app_length. Qed.

Lemma Contains_app_l (s t x : string) :
  0 < String.length x -> Contains s x = true -> Contains (s ++ t) x = true.
Proof.
  intros Hx H. apply Contains_iff in H. destruct H as [m Hm].
  apply Contains_iff. exists m.
  rewrite occurs_at_app; [exact Hm | now apply occurs_at_bound].
Qed.

(** No occurrence of [x] starts inside [id] when none starts there in
    [id ++ rest]. *)
Lemma no_occurrence_inside (x id rest : string) :
  0 < String.length x ->
  (forall m, m < String.length id -> occurs_at x (id ++ rest) m = false) ->
  Contains id x = false.
Proof.
  intros Hx Hnone. destruct (Contains id x) eqn:E; [|reflexivity].
  apply Contains_iff in E. destruct E as [m Hm].
  pose proof (occurs_at_bound _ _ _ Hx Hm) as Hb.
  rewrite <- (occurs_at_app x id rest m Hb), Hnone in Hm by lia.
  discriminate.
Qed.

Lemma has_byte_cons (c b : ascii) (s : string) :
  has_byte c (String b s) = false -> b <> c /\ has_byte c s = false.
Proof.
  simpl. intros H. apply orb_false_iff in H. destruct H as [Hb Hs].
  split; [now apply Ascii.eqb_neq | exact Hs].
Qed.

(** A match of [sep] cannot run over a byte that [sep] does not hold. *)
Lemma prefix_stop (sep s rest : string) :
  rest = EmptyString
  \/ (exists c r, rest = String c r /\ has_byte c sep = false) ->
  String.prefix sep (s ++ rest) = true -> String.prefix sep s = true.
Proof.
  intros Hrest. revert s. induction sep as [|b sep IH]; intros s H.
  - apply prefix_nil.
  - destruct s as [|a s].
    + simpl append in H. destruct Hrest as [->|(c & r & -> & Hc)].
      * discriminate.
      * rewrite prefix_cons in H. apply has_byte_cons in Hc.
        destruct (ascii_dec b c); [tauto | discriminate].
    + simpl append in H. rewrite prefix_cons in *.
      destruct (ascii_dec b a); [|discriminate].
      apply IH; [|exact H].
      destruct Hrest as [->|(c & r & -> & Hc)]; [now left|].
      right. exists c, r. split; [reflexivity|].
      now apply has_byte_cons in Hc.
Qed.

Lemma occurs_stop (sep s rest : string) (m : nat) :
  rest = EmptyString
  \/ (exists c r, rest = String c r /\ has_byte c sep = false) ->
  m < String.length s ->
  occurs_at sep (s ++ rest) m = true -> occurs_at sep s m = true.
Proof.
  intros Hrest. revert m. induction s as [|a s IH]; intros m Hm H.
  - simpl in Hm. lia.
  - destruct m as [|m].
    + rewrite occurs_at_0 in *. unfold HasPrefix in *.
      now apply (prefix_stop sep (String a s) rest).
    + simpl append in H. rewrite occurs_at_S in *.
      apply IH; [simpl in Hm; lia | exact H].
Qed.

Lemma append_eq_length_inv (s1 r1 s2 r2 : string) :
  s1 ++ r1 = s2 ++ r2 -> String.length s1 = String.length s2 ->
  s1 = s2 /\ r1 = r2.
Proof.
  revert s2. induction s1 as [|a s1 IH]; intros [|b s2] H Hlen;
    try discriminate.
  - now split.
  - simpl in H, Hlen. injection H as -> H. injection Hlen as Hlen.
    destruct (IH _ H Hlen) as [-> ->]. now split.
Qed.

Lemma starts_with_question (rest : string) :
  HasPrefix rest "?" = true ->
  exists c r, rest = String c r /\ has_byte c "/playlist/" = false.
Proof.
  intros H. apply HasPrefix_iff in H. destruct H as [r ->].
  now exists "?"%char, r.
Qed.

(** X1.  A link made of a prefix whose first ["/playlist/"] is the one
    that ends it, an ID that holds neither ["?"] nor ["/playlist/"], and
    then nothing or a query string, gives the ID back: [extractPlaylistID]
    returns it, whatever the query string holds. *)
Theorem extractPlaylistID_of_built_link (pre id rest : string) :
  Contains (pre ++ "/playlist/") playlistMarker = true ->
  Contains (pre ++ "/playlist") "/playlist/" = false ->
  Contains id "?" = false ->
  Contains id "/playlist/" = false ->
  rest = EmptyString \/ HasPrefix rest "?" = true ->
  extractPlaylistID (pre ++ "/playlist/" ++ id ++ rest) = id.
Proof.
  intros Hmark Hpre Hq Hs Hrest.
  set (input := pre ++ "/playlist/" ++ id ++ rest).
  assert (Hin : Contains input playlistMarker = true).
  { unfold input. rewrite <- append_assoc.
    apply Contains_app_l; [simpl; lia | exact Hmark]. }
  destruct (extractPlaylistID_link input Hin)
    as (pre' & rest' & Heq & Hfirst' & Hinside' & Hend').
  set (id' := extractPlaylistID input) in *.
  (* the first "/playlist/" of the input is the one after [pre] *)
  assert (Hfirst : forall m, m < String.length pre ->
                             occurs_at "/playlist/" input m = false).
  { intros m Hm. unfold input.
    change (pre ++ "/playlist/" ++ id ++ rest)
      with (pre ++ "/playlist" ++ "/" ++ id ++ rest).
    rewrite <- append_assoc, occurs_at_app.
    - now apply Contains_false.
    - rewrite length_append. simpl. lia. }
  assert (Hat : occurs_at "/playlist/" input (String.length pre) = true).
  { unfold input. rewrite occurs_at_length. apply HasPrefix_app. }
  assert (Hat' : occurs_at "/playlist/" input (String.length pre') = true).
  { rewrite Heq, occurs_at_length. apply HasPrefix_app. }
  assert (Hlen : String.length pre' = String.length pre).
  { destruct (Nat.lt_trichotomy (String.length pre') (String.length pre))
      as [Hlt|[Heqlen|Hgt]]; [|exact Heqlen|].
    - rewrite (Hfirst _ Hlt) in Hat'. discriminate.
    - rewrite (Hfirst' _ Hgt) in Hat. discriminate. }
  assert (Hafter : id' ++ rest' = id ++ rest).
  { unfold input in Heq. symmetry in Heq.
    destruct (append_eq_length_inv _ _ _ _ Heq Hlen) as [_ Hr].
    now injection Hr. }
  rewrite Hafter in Hinside'.
  assert (Hstop : rest = EmptyString
                  \/ exists c r, rest = String c r
                                 /\ has_byte c "/playlist/" = false).
  { destruct Hrest as [->|H]; [now left | right].
    now apply starts_with_question. }
  assert (Hidlen : String.length id' = String.length id).
  { destruct (Nat.lt_trichotomy (String.length id') (String.length id))
      as [Hlt|[Heqlen|Hgt]]; [|exact Heqlen|].
    - exfalso.
      assert (Hhere : forall x, occurs_at x (id ++ rest) (String.length id')
                                = HasPrefix rest' x).
      { intros x. rewrite <- Hafter. apply occurs_at_length. }
      destruct Hend' as [->|[Hq'|Hs']].
      + rewrite append_nil_r in Hafter.
        apply (f_equal String.length) in Hafter.
        rewrite length_append in Hafter. lia.
      + rewrite <- Hhere in Hq'.
        rewrite occurs_at_app in Hq' by (simpl; lia).
        rewrite (Contains_false _ _ _ Hq) in Hq'. discriminate.
      + rewrite <- Hhere in Hs'.
        apply (occurs_stop _ _ _ _ Hstop Hlt) in Hs'.
        rewrite (Contains_false _ _ _ Hs) in Hs'. discriminate.
    - exfalso. destruct (Hinside' _ Hgt) as [Hnoq _].
      rewrite occurs_at_length in Hnoq.
      destruct Hrest as [->|H]; [|congruence].
      rewrite append_nil_r in Hafter.
      apply (f_equal String.length) in Hafter.
      rewrite length_append in Hafter. lia. }
  now destruct (append_eq_length_inv _ _ _ _ Hafter Hidlen).
Qed.

(** X2.  What [extractPlaylistID] returns for an input with the link
    marker holds no ["?"] and no ["/playlist/"], and is at least ten bytes
    shorter than the input. *)
Theorem extractPlaylistID_link_clean (input : string) :
  Contains input playlistMarker = true ->
  Contains (extractPlaylistID input) "?" = false
  /\ Contains (extractPlaylistID input) "/playlist/" = false
  /\ String.length (extractPlaylistID input) + 10 <= String.length input.
Proof.
  intros Hmark.
  destruct (extractPlaylistID_link input Hmark)
    as (pre & rest & Heq & _ & Hinside & _).
  split; [|split].
  - apply (no_occurrence_inside "?" _ rest); [simpl; lia|].
    intros m Hm. now destruct (Hinside m Hm).
  - apply (no_occurrence_inside "/playlist/" _ rest); [simpl; lia|].
    intros m Hm. now destruct (Hinside m Hm).
  - rewrite Heq at 2. rewrite !length_append. simpl. lia.
Qed.

End BuiltLinks.

Lemma extractPlaylistID_of_built_link_witness :
  extractPlaylistID ("https://open.spotify.com" ++ "/playlist/"
                     ++ "37i9dQZF1DXcBWIGoYBM5M" ++ "?si=abc123")
  = "37i9dQZF1DXcBWIGoYBM5M".
Proof.
  apply (extractPlaylistID_of_built_link "https://open.spotify.com"
           "37i9dQZF1DXcBWIGoYBM5M" "?si=abc123").
  - reflexivity.
  - reflexivity.
  - reflexivity.
  - reflexivity.
  - right. reflexivity.
Defined.

Lemma extractPlaylistID_link_clean_witness :
  Contains (extractPlaylistID Examples.doubleSegmentLink) "?" = false
  /\ Contains (extractPlaylistID Examples.doubleSegmentLink) "/playlist/" = false
  /\ (String.length (extractPlaylistID Examples.doubleSegmentLink) + 10
      <= String.length Examples.doubleSegmentLink)%nat.
Proof.
  apply (extractPlaylistID_link_clean Examples.doubleSegmentLink).
  reflexivity.
Defined.

(* ================================================================== *)
(** ** The resolver's requests, and when its loop ends                  *)
(* ================================================================== *)

Section ResolverRuns.

Variable EqualFold : string -> string -> bool.
Variable client : Client.
Variable input : string.

Local Open Scope list_scope.

Lemma int_add_page (k : nat) :
  50 * Z.of_nat (S k) <= int_max ->
  int_add (50 * Z.of_nat k) 50 = 50 * Z.of_nat (S k).
Proof.
  intros H. unfold int_add. rewrite int_wrap_id; [lia|].
  rewrite int_min_value. lia.
Qed.

Lemma pageLoopQuiet_requests (fuel k : nat) :
  50 * Z.of_nat (k + fuel) <= int_max ->
  exists n, (n <= fuel)%nat
            /\ trace (pageLoopQuiet EqualFold fuel client input 50
                                    (50 * Z.of_nat k))
               = page_requests_from k n.
Proof.
  revert k. induction fuel as [|fuel IH]; intros k Hmax.
  - exists 0%nat. split; [lia | reflexivity].
  - rewrite pageLoopQuiet_S, bind_callCurrentUsersPlaylists.
    cbn [trace snd].
    destruct (CurrentUsersPlaylists client 50 (50 * Z.of_nat k))
      as [playlists|err].
    + destruct (scanPageQuiet EqualFold input playlists).
      * exists 1%nat. split; [lia | reflexivity].
      * destruct (len playlists <? 50).
        -- exists 1%nat. split; [lia | reflexivity].
        -- rewrite int_add_page by lia.
           destruct (IH (S k)) as (n & Hn & Ht); [now rewrite Nat.add_succ_comm|].
           exists (S n). split; [lia|].
           rewrite page_requests_from_S. now f_equal.
    + exists 1%nat. split; [lia | reflexivity].
Qed.

(** X3.  Whatever the lister answers, [resolvePlaylistIDQuiet] asks only
    the lister, always with limit 50, and asks for consecutive pages from
    offset 0 on: its events are the requests for the first [n] pages, for
    some [n] within the loop budget.  It never fetches devices or sends a
    command. *)
Theorem resolvePlaylistIDQuiet_requests (fuel : nat) :
  50 * Z.of_nat fuel <= int_max ->
  exists n, (n <= fuel)%nat
            /\ trace (resolvePlaylistIDQuiet EqualFold fuel client input)
               = page_requests n.
Proof.
  intros Hmax. unfold resolvePlaylistIDQuiet.
  destruct (Contains input playlistMarker);
    [exists 0%nat; split; [lia | reflexivity]|].
  destruct ((strlen input =? 22) && negb (Contains input " "));
    [exists 0%nat; split; [lia | reflexivity]|].
  destruct (pageLoopQuiet_requests fuel 0%nat Hmax) as (n & Hn & Ht).
  change (50 * Z.of_nat 0) with 0 in Ht.
  exists n. split; [exact Hn|]. cbv zeta.
  destruct (pageLoopQuiet EqualFold fuel client input 50 0)
    as [[[returned|]| | |] t]; cbn [trace snd bind ret] in *;
    rewrite ?app_nil_r; exact Ht.
Qed.

Lemma pageLoopQuiet_ends (k fuel j : nat) :
  (k < fuel)%nat ->
  50 * Z.of_nat (j + k) <= int_max ->
  (exists err, CurrentUsersPlaylists client 50 (50 * Z.of_nat (j + k)) = Err err)
  \/ (exists page, CurrentUsersPlaylists client 50 (50 * Z.of_nat (j + k))
                   = Ok page /\ len page < 50) ->
  exists r, outcome (pageLoopQuiet EqualFold fuel client input 50
                                   (50 * Z.of_nat j)) = Done r.
Proof.
  revert fuel j. induction k as [|k IH]; intros fuel j Hfuel Hmax Hend;
    (destruct fuel as [|fuel]; [lia|]);
    rewrite pageLoopQuiet_S, bind_callCurrentUsersPlaylists; cbn [outcome fst].
  - rewrite Nat.add_0_r in Hend.
    destruct Hend as [[err ->]|(page & -> & Hshort)]; [now eexists|].
    destruct (scanPageQuiet EqualFold input page); [now eexists|].
    apply Z.ltb_lt in Hshort. rewrite Hshort. now eexists.
  - destruct (CurrentUsersPlaylists client 50 (50 * Z.of_nat j))
      as [playlists|err]; [|now eexists].
    destruct (scanPageQuiet EqualFold input playlists); [now eexists|].
    destruct (len playlists <? 50); [now eexists|].
    rewrite int_add_page by lia.
    apply IH; [lia | now rewrite Nat.add_succ_comm
              | now rewrite Nat.add_succ_comm].
Qed.

(** X4.  The resolver returns as soon as the loop budget reaches a page
    the lister fails on or answers short: if the fetch at offset [50 * k]
    fails or yields fewer than 50 entries, every budget above [k] gives a
    result (an ID or an error), whatever the other pages hold. *)
Theorem resolvePlaylistIDQuiet_returns (k fuel : nat) :
  (k < fuel)%nat ->
  50 * Z.of_nat k <= int_max ->
  (exists err, CurrentUsersPlaylists client 50 (50 * Z.of_nat k) = Err err)
  \/ (exists page, CurrentUsersPlaylists client 50 (50 * Z.of_nat k) = Ok page
                   /\ len page < 50) ->
  exists r, outcome (resolvePlaylistIDQuiet EqualFold fuel client input)
            = Done r.
Proof.
  intros Hfuel Hmax Hend. unfold resolvePlaylistIDQuiet.
  destruct (Contains input playlistMarker); [now eexists|].
  destruct ((strlen input =? 22) && negb (Contains input " ")); [now eexists|].
  destruct (pageLoopQuiet_ends k fuel 0%nat Hfuel Hmax Hend) as [r Hr].
  change (50 * Z.of_nat 0) with 0 in Hr. cbv zeta.
  destruct (pageLoopQuiet EqualFold fuel client input 50 0) as [o t].
  cbn [outcome fst] in Hr. subst o. cbn [bind].
  destruct r as [returned|]; now eexists.
Qed.

Lemma pageLoopQuiet_never_ends (fuel : nat) (offset : Z) :
  (forall offset', exists page,
      CurrentUsersPlaylists client 50 offset' = Ok page
      /\ 50 <= len page
      /\ existsb (entry_matches EqualFold input) page = false) ->
  outcome (pageLoopQuiet EqualFold fuel client input 50 offset) = OutOfFuel.
Proof.
  intros Hfull. revert offset. induction fuel as [|fuel IH]; intros offset;
    [reflexivity|].
  rewrite pageLoopQuiet_S, bind_callCurrentUsersPlaylists. cbn [outcome fst].
  destruct (Hfull offset) as (page & -> & Hlen & Hnone).
  rewrite scanPageQuiet_find. rewrite find_existsb in Hnone.
  destruct (find (entry_matches EqualFold input) page); [discriminate|].
  cbn [option_map].
  assert (H : (len page <? 50) = false) by (apply Z.ltb_ge; exact Hlen).
  rewrite H. apply IH.
Qed.

(** X5.  The paging loop has no bound of its own: against a lister that
    answers every offset with at least 50 entries none of which matches
    (a lister that ignores the offset, say), a name search never returns;
    every loop budget is used up. *)
Theorem resolvePlaylistIDQuiet_pages_forever (fuel : nat) :
  Contains input playlistMarker = false ->
  String.length input <> 22%nat \/ Contains input " " = true ->
  (forall offset, exists page,
      CurrentUsersPlaylists client 50 offset = Ok page
      /\ 50 <= len page
      /\ existsb (entry_matches EqualFold input) page = false) ->
  outcome (resolvePlaylistIDQuiet EqualFold fuel client input) = OutOfFuel.
Proof.
  intros Hlink Hbare Hfull. unfold resolvePlaylistIDQuiet.
  rewrite Hlink, (not_bare_id _ Hbare). cbv zeta.
  pose proof (pageLoopQuiet_never_ends fuel 0 Hfull) as H.
  destruct (pageLoopQuiet EqualFold fuel client input 50 0) as [o t].
  cbn [outcome fst] in H. now subst o.
Qed.

End ResolverRuns.

(* ================================================================== *)
(** ** Listing the playlists                                            *)
(* ================================================================== *)

Section Listing.

Variable client : Client.

Local Open Scope list_scope.

Lemma listLoop_S (fuel : nat) (allPlaylists : list SimplePlaylist)
      (limit offset : Z) :
  listLoop (S fuel) client allPlaylists limit offset
  = (r <- callCurrentUsersPlaylists client limit offset ;;
     match r with
     | Err err => fatal ("Failed to get playlists: " ++ ErrorText err)
     | Ok playlists =>
         let allPlaylists := allPlaylists ++ playlists in
         if len playlists <? limit then ret allPlaylists
         else listLoop fuel client allPlaylists limit (int_add offset limit)
     end).
Proof. reflexivity. Qed.

Lemma listLoop_pages (last : list SimplePlaylist) :
  len last < 50 ->
  forall (full : list (list SimplePlaylist)) (fuel k : nat)
         (allPlaylists : list SimplePlaylist),
    (forall i page, nth_error (full ++ [last]) i = Some page ->
                    CurrentUsersPlaylists client 50 (50 * Z.of_nat (k + i))
                    = Ok page) ->
    Forall (fun page => 50 <= len page) full ->
    (List.length full < fuel)%nat ->
    50 * Z.of_nat (k + List.length full) <= int_max ->
    listLoop fuel client allPlaylists 50 (50 * Z.of_nat k)
    = (Done (allPlaylists ++ List.concat (full ++ [last])),
       page_requests_from k (S (List.length full))).
Proof.
  intros Hlast full.
  induction full as [|page full IH];
    intros fuel k allPlaylists Hserve Hfull Hfuel Hmax;
    (destruct fuel as [|fuel]; [simpl in Hfuel; lia|]).
  - pose proof (Hserve 0%nat last eq_refl) as H0.
    rewrite Nat.add_0_r in H0.
    rewrite listLoop_S, bind_callCurrentUsersPlaylists, H0. cbv beta iota zeta.
    apply Z.ltb_lt in Hlast. rewrite Hlast.
    simpl app. simpl List.concat. now rewrite app_nil_r.
  - pose proof (Hserve 0%nat page eq_refl) as H0.
    rewrite Nat.add_0_r in H0.
    inversion Hfull as [|? ? Hpage Hrest]; subst.
    rewrite listLoop_S, bind_callCurrentUsersPlaylists, H0. cbv beta iota zeta.
    assert (Hlen : (len page <? 50) = false) by (apply Z.ltb_ge; exact Hpage).
    rewrite Hlen, int_add_page by (simpl List.length in Hmax; lia).
    rewrite (IH fuel (S k)).
    + simpl app. simpl List.concat. now rewrite app_assoc.
    + intros i pg Hi. specialize (Hserve (S i) pg Hi).
      now replace (S k + i)%nat with (k + S i)%nat by lia.
    + exact Hrest.
    + simpl in Hfuel. lia.
    + simpl List.length in Hmax.
      now replace (S k + List.length full)%nat
        with (k + S (List.length full))%nat by lia.
Qed.

(** X6.  When the lister serves full pages followed by a short one, the
    loop of [handleListPlaylists] requests each of them once, in order
    (limit 50, offsets 0, 50, ...), and what it hands to the table is the
    pages laid end to end: no entry lost, repeated or reordered. *)
Theorem fetchAllPlaylists_pages
        (fuel : nat) (full : list (list SimplePlaylist))
        (last : list SimplePlaylist) :
  serves client (full ++ [last]) ->
  Forall (fun page => 50 <= len page) full ->
  len last < 50 ->
  (List.length full < fuel)%nat ->
  50 * len full <= int_max ->
  fetchAllPlaylists fuel client
  = (Done (List.concat (full ++ [last])),
     page_requests (S (List.length full))).
Proof.
  intros Hserve Hfull Hlast Hfuel Hmax. unfold fetchAllPlaylists. cbv zeta.
  pose proof (listLoop_pages last Hlast full fuel 0%nat []) as H.
  change (50 * Z.of_nat 0) with 0 in H.
  apply H; [exact (serves_nth _ _ Hserve) | assumption..].
Qed.

(** X7.  Name resolution searches what the listing shows: when the lister
    serves full pages followed by a short one, the list that
    [handleListPlaylists] prints and the answer of [resolvePlaylistIDQuiet]
    to a name-search input agree -- the answer is the ID of the first
    listed entry that matches the input, and the input itself when no
    listed entry matches. *)
Theorem resolve_agrees_with_listing
        (EqualFold : string -> string -> bool) (fuel : nat) (input : string)
        (full : list (list SimplePlaylist)) (last : list SimplePlaylist) :
  Contains input playlistMarker = false ->
  String.length input <> 22%nat \/ Contains input " " = true ->
  serves client (full ++ [last]) ->
  Forall (fun page => 50 <= len page) full ->
  len last < 50 ->
  (List.length full < fuel)%nat ->
  50 * len full <= int_max ->
  exists listing,
    outcome (fetchAllPlaylists fuel client) = Done listing
    /\ outcome (resolvePlaylistIDQuiet EqualFold fuel client input)
       = Done (Ok (match find (entry_matches EqualFold input) listing with
                   | Some entry => PlaylistID entry
                   | None => input
                   end)).
Proof.
  intros Hlink Hbare Hserve Hfull Hlast Hfuel Hmax.
  exists (List.concat (full ++ [last])). split.
  - unfold fetchAllPlaylists. cbv zeta.
    pose proof (listLoop_pages last Hlast full fuel 0%nat []) as H.
    change (50 * Z.of_nat 0) with 0 in H.
    now rewrite H; [| exact (serves_nth _ _ Hserve) | assumption..].
  - unfold resolvePlaylistIDQuiet.
    rewrite Hlink, (not_bare_id _ Hbare). cbv zeta.
    pose proof (pageLoopQuiet_pages EqualFold client input last
                                    (or_introl Hlast) full fuel 0%nat) as Hloop.
    change (50 * Z.of_nat 0) with 0 in Hloop.
    rewrite Hloop;
      [| exact (serves_nth _ _ Hserve) | exact Hfull | exact Hfuel | exact Hmax].
    rewrite bind_done.
    now destruct (find (entry_matches EqualFold input)
                       (List.concat (full ++ [last]))).
Qed.

End Listing.

(* ================================================================== *)
(** ** The runs of [PlayPlaylist]                                       *)
(* ================================================================== *)

(** The case analysis of a run of [PlayPlaylist]: every call site is
    opened, in program order. *)
Ltac open_scrutinee :=
  match goal with
  | |- context [match ?x with _ => _ end] =>
      lazymatch x with
      | context [match _ with _ => _ end] => fail
      | (_, _) => fail
      | _ => destruct x eqn:?
      end
  end.

Ltac play_cases :=
  unfold PlayPlaylist, callPlayerDevices, callGetPlaylist, callPlayOpt,
    callShuffle, element, Intn, bind, ret, emit, panic;
  repeat (cbv beta iota zeta; try open_scrutinee);
  cbv beta iota zeta.

Section PlayRuns.

Variable EqualFold : string -> string -> bool.

Local Open Scope list_scope.

Lemma targetIndex_in_range (deviceName : string) (devices : list PlayerDevice) :
  devices <> [] ->
  exists target, nth_error devices (targetIndex deviceName devices) = Some target.
Proof.
  intros Hne. unfold targetIndex.
  destruct (findTarget deviceName devices 0) as [i|] eqn:ET.
  - destruct (findTarget_Some _ _ _ _ ET) as [_ [[d [Hd _]] _]].
    rewrite Nat.sub_0_r in Hd. now exists d.
  - destruct (findActive devices 0) as [i|] eqn:EA.
    + destruct (findActive_Some _ _ _ EA) as [_ [[d [Hd _]] _]].
      rewrite Nat.sub_0_r in Hd. now exists d.
    + destruct devices as [|d rest]; [congruence | now exists d].
Qed.

Lemma pageLoopQuiet_shape (fuel : nat) (client : Client) (input : string)
      (offset : Z) :
  ((exists r, outcome (pageLoopQuiet EqualFold fuel client input 50 offset)
              = Done r)
   \/ outcome (pageLoopQuiet EqualFold fuel client input 50 offset) = OutOfFuel)
  /\ Forall (fun e => is_lister_request e = true)
            (trace (pageLoopQuiet EqualFold fuel client input 50 offset)).
Proof.
  revert offset. induction fuel as [|fuel IH]; intros offset.
  - split; [now right | constructor].
  - rewrite pageLoopQuiet_S, bind_callCurrentUsersPlaylists.
    cbn [outcome trace fst snd].
    destruct (CurrentUsersPlaylists client 50 offset) as [playlists|err].
    + destruct (scanPageQuiet EqualFold input playlists).
      * split; [left; now eexists | now repeat constructor].
      * destruct (len playlists <? 50).
        -- split; [left; now eexists | now repeat constructor].
        -- destruct (IH (int_add offset 50)) as [Ho Ht].
           split; [exact Ho | now constructor].
    + split; [left; now eexists | now repeat constructor].
Qed.

(** The resolver returns or is still paging; it never panics and never
    ends the process, and all its events are lister requests. *)
Lemma resolvePlaylistIDQuiet_shape (fuel : nat) (client : Client)
      (input : string) :
  ((exists r, outcome (resolvePlaylistIDQuiet EqualFold fuel client input)
              = Done r)
   \/ outcome (resolvePlaylistIDQuiet EqualFold fuel client input) = OutOfFuel)
  /\ Forall (fun e => is_lister_request e = true)
            (trace (resolvePlaylistIDQuiet EqualFold fuel client input)).
Proof.
  unfold resolvePlaylistIDQuiet.
  destruct (Contains input playlistMarker);
    [split; [left; now eexists | constructor]|].
  destruct ((strlen input =? 22) && negb (Contains input " "));
    [split; [left; now eexists | constructor]|].
  cbv zeta. destruct (pageLoopQuiet_shape fuel client input 0) as [Ho Ht].
  destruct (pageLoopQuiet EqualFold fuel client input 50 0)
    as [[[returned|]| | |] t]; cbn [outcome trace fst snd bind ret] in *;
    rewrite ?app_nil_r.
  - split; [left; now eexists | exact Ht].
  - split; [left; now eexists | exact Ht].
  - destruct Ho as [[r Hr]|Hr]; discriminate.
  - destruct Ho as [[r Hr]|Hr]; discriminate.
  - split; [now right | exact Ht].
Qed.

Lemma lister_requests_are_no_commands (t : list Event) :
  Forall (fun e => is_lister_request e = true) t -> filter is_command t = [].
Proof.
  induction 1 as [|e t He _ IH]; [reflexivity|].
  simpl. destruct e; try discriminate. exact IH.
Qed.

Lemma filter_command_cons_app (e : Event) (calls rest : list Event) :
  Forall (fun e => is_lister_request e = true) calls ->
  filter is_command (e :: calls ++ rest)
  = filter is_command [e] ++ filter is_command rest.
Proof.
  intros H. simpl. rewrite filter_app, (lister_requests_are_no_commands _ H).
  now destruct (is_command e).
Qed.

Lemma filter_command_cons (e : Event) (calls : list Event) :
  Forall (fun e => is_lister_request e = true) calls ->
  filter is_command (e :: calls) = filter is_command [e].
Proof.
  intros H. simpl. rewrite (lister_requests_are_no_commands _ H).
  now destruct (is_command e).
Qed.

(** What is known of the resolver's part of a run once it is opened. *)
Ltac resolver_facts :=
  match goal with
  | H : resolvePlaylistIDQuiet ?ef ?fuel ?client ?input = (_, _) |- _ =>
      let Hshape := fresh "Hshape" in
      pose proof (resolvePlaylistIDQuiet_shape fuel client input) as Hshape;
      rewrite H in Hshape; cbn [outcome trace fst snd] in Hshape;
      destruct Hshape as [Houtcome Hcalls]
  end.

(** X8.  The commands of a run of [PlayPlaylist] come in one order,
    whatever the remote service answers: the device fetch, then (after the
    resolver's lister requests) the metadata fetch, then one play command,
    then, for a shuffle play only, one request to switch shuffle on.  A run
    may stop after any of them; it never pauses, never sends a second play
    command, and never touches shuffle when shuffle was not asked for. *)
Theorem PlayPlaylist_follows_protocol
        (fuel : nat) (spotifyClient : option Client) (draw : Z)
        (deviceName playlistInput : string) (shuffle : bool) :
  play_protocol shuffle
    (filter is_command
            (trace (PlayPlaylist EqualFold fuel spotifyClient draw deviceName
                                 playlistInput shuffle)))
  = true.
Proof.
  play_cases; cbn [trace snd app]; try resolver_facts;
    rewrite ?filter_command_cons_app, ?filter_command_cons by assumption;
    reflexivity.
Qed.

Lemma nonempty_len {A : Type} (l : list A) : (len l =? 0) = false -> l <> [].
Proof. now destruct l. Qed.

(** X9.  [PlayPlaylist] never ends the process, and it panics in one
    situation only: a shuffle play whose random start cannot be drawn
    ([rand.Intn] on a track count that is not positive).  A play without
    shuffle never panics, whatever the playlist holds. *)
Theorem PlayPlaylist_panics_only_in_Intn
        (fuel : nat) (spotifyClient : option Client) (draw : Z)
        (deviceName playlistInput : string) (shuffle : bool) :
  (forall msg,
      outcome (PlayPlaylist EqualFold fuel spotifyClient draw deviceName
                            playlistInput shuffle) <> Fatal msg)
  /\ (forall msg,
         outcome (PlayPlaylist EqualFold fuel spotifyClient draw deviceName
                               playlistInput shuffle) = Panic msg ->
         shuffle = true /\ msg = "invalid argument to Intn").
Proof.
  split; intros msg; play_cases; cbn [outcome fst]; try resolver_facts;
    try discriminate;
    try (destruct Houtcome as [[r Hr]|Hr]; discriminate).
  - intros H. now injection H as <-.
  - exfalso.
    match goal with
    | Hlen : (len ?l =? 0) = false, Hnth : nth_error ?l _ = None |- _ =>
        destruct (targetIndex_in_range deviceName l (nonempty_len _ Hlen))
          as [target Htarget]; congruence
    end.
Qed.

Lemma In_play_command (opts : PlayOptions) (e : Event)
      (calls rest : list Event) :
  Forall (fun e => is_lister_request e = true) calls ->
  In (CallPlayOpt opts) (e :: calls ++ rest) ->
  e = CallPlayOpt opts \/ In (CallPlayOpt opts) rest.
Proof.
  intros Hcalls [H|H]; [now left|].
  apply in_app_or in H. destruct H as [H|H]; [|now right].
  rewrite Forall_forall in Hcalls. specialize (Hcalls _ H). discriminate.
Qed.

(** X10.  A play command that [PlayPlaylist] sends is always addressed to
    the device it selected from the list it has just fetched, carries the
    context ["spotify:playlist:"] followed by the ID the resolver returned,
    and carries a start position, which is 0 when shuffle was not asked
    for. *)
Theorem PlayPlaylist_play_command
        (fuel : nat) (spotifyClient : option Client) (draw : Z)
        (deviceName playlistInput : string) (shuffle : bool)
        (opts : PlayOptions) :
  In (CallPlayOpt opts)
     (trace (PlayPlaylist EqualFold fuel spotifyClient draw deviceName
                          playlistInput shuffle)) ->
  exists client devices target playlistID offset,
    spotifyClient = Some client
    /\ PlayerDevices client = Ok devices
    /\ nth_error devices (targetIndex deviceName devices) = Some target
    /\ In target devices
    /\ outcome (resolvePlaylistIDQuiet EqualFold fuel client playlistInput)
       = Done (Ok playlistID)
    /\ opts = mkPlayOptions (Some (DeviceID target))
                            (Some ("spotify:playlist:" ++ playlistID)%string)
                            (Some offset)
    /\ (shuffle = false -> offset = 0).
Proof.
  play_cases; cbn [trace snd app]; try resolver_facts; intros Hin;
    try (apply In_play_command in Hin; [|assumption]);
    repeat match goal with
           | H : _ \/ _ |- _ => destruct H
           | H : In _ (_ :: _) |- _ => destruct H
           | H : In _ [] |- _ => destruct H
           | H : In _ (?l ++ []) |- _ => rewrite app_nil_r in H
           end;
    try discriminate;
    try match goal with
        | H : In (CallPlayOpt _) ?l, Hl : Forall _ ?l |- _ =>
            rewrite Forall_forall in Hl; specialize (Hl _ H); discriminate
        end.
  all: match goal with
       | H : CallPlayOpt _ = CallPlayOpt _ |- _ => injection H as <-
       end.
  all: match goal with
       | Hc : resolvePlaylistIDQuiet _ _ ?c _ = _,
         Hd : PlayerDevices ?c = Ok ?ds,
         Hn : nth_error ?ds _ = Some ?t |- _ =>
           exists c, ds, t;
           do 2 eexists;
           split; [reflexivity|];
           split; [exact Hd|];
           split; [exact Hn|];
           split; [exact (nth_error_In _ _ Hn)|];
           split; [rewrite Hc; reflexivity|];
           split; [reflexivity|]
       end.
  all: try reflexivity; discriminate.
Qed.

(** X11.  The steps of a shuffle play, once the playlist is fetched with a
    positive track count and the play command is accepted: the play
    command, a pause of 500 ms, then the request to switch shuffle on.
    When that request fails, the failure is written to the log and the
    play still returns its message. *)
Theorem PlayPlaylist_shuffle_sequence
        (fuel : nat) (client : Client) (draw : Z)
        (deviceName playlistInput : string)
        (devices : list PlayerDevice) (target : PlayerDevice)
        (playlistID : string) (calls : list Event) (playlist : FullPlaylist) :
  PlayerDevices client = Ok devices ->
  nth_error devices (targetIndex deviceName devices) = Some target ->
  resolvePlaylistIDQuiet EqualFold fuel client playlistInput
  = (Done (Ok playlistID), calls) ->
  GetPlaylist client playlistID = Ok playlist ->
  0 < int_wrap (TracksTotal playlist) ->
  PlayOpt client (mkPlayOptions
                    (Some (DeviceID target))
                    (Some ("spotify:playlist:" ++ playlistID)%string)
                    (Some (draw mod int_wrap (TracksTotal playlist)))) = None ->
  (exists message,
      outcome (PlayPlaylist EqualFold fuel (Some client) draw deviceName
                            playlistInput true) = Done (Ok message))
  /\ trace (PlayPlaylist EqualFold fuel (Some client) draw deviceName
                         playlistInput true)
     = CallPlayerDevices
         :: calls
         ++ [ CallGetPlaylist playlistID;
              CallPlayOpt (mkPlayOptions
                             (Some (DeviceID target))
                             (Some ("spotify:playlist:" ++ playlistID)%string)
                             (Some (draw mod int_wrap (TracksTotal playlist))));
              Sleep 500;
              CallShuffle true ]
         ++ match Shuffle client true with
            | Some err => [Log ("Warning: Failed to enable shuffle: "
                                ++ ErrorText err)%string]
            | None => []
            end.
Proof.
  intros Hdev Htarget Hres Hget Hpos Hplay.
  rewrite (PlayPlaylist_prefix EqualFold fuel client draw deviceName
             playlistInput true devices target playlistID calls playlist _
             Hdev Htarget Hres Hget eq_refl).
  cbv zeta. unfold Intn.
  assert (Hn : (int_wrap (TracksTotal playlist) <=? 0) = false)
    by (apply Z.leb_gt; exact Hpos).
  rewrite Hn, bind_ret. unfold callPlayOpt.
  rewrite bind_emit_ret. cbn [OptDeviceID PlaybackContext]. rewrite Hplay.
  rewrite bind_emit. unfold callShuffle. rewrite bind_emit_ret.
  destruct (Shuffle client true) as [err|].
  - rewrite bind_emit. cbn [outcome trace fst snd ret].
    split; [now eexists | reflexivity].
  - rewrite bind_ret. cbn [outcome trace fst snd ret].
    split; [now eexists | reflexivity].
Qed.

(** X12.  A play command the remote service refuses is the end of the
    run, with or without shuffle: [PlayPlaylist] returns the refusal wrapped
    as "failed to start playback: ...", and the refused command is its last
    event -- no pause follows and shuffle is not touched. *)
Theorem PlayPlaylist_playback_refused
        (fuel : nat) (client : Client) (draw : Z)
        (deviceName playlistInput : string) (shuffle : bool)
        (devices : list PlayerDevice) (target : PlayerDevice)
        (playlistID : string) (calls : list Event) (playlist : FullPlaylist)
        (err : error) :
  PlayerDevices client = Ok devices ->
  nth_error devices (targetIndex deviceName devices) = Some target ->
  resolvePlaylistIDQuiet EqualFold fuel client playlistInput
  = (Done (Ok playlistID), calls) ->
  GetPlaylist client playlistID = Ok playlist ->
  (shuffle = true -> 0 < int_wrap (TracksTotal playlist)) ->
  PlayOpt client (mkPlayOptions
                    (Some (DeviceID target))
                    (Some ("spotify:playlist:" ++ playlistID)%string)
                    (Some (if shuffle
                           then draw mod int_wrap (TracksTotal playlist)
                           else 0))) = Some err ->
  PlayPlaylist EqualFold fuel (Some client) draw deviceName playlistInput shuffle
  = (Done (Err (ErrorWrap "failed to start playback: " err)),
     CallPlayerDevices
       :: calls
       ++ [ CallGetPlaylist playlistID;
            CallPlayOpt (mkPlayOptions
                           (Some (DeviceID target))
                           (Some ("spotify:playlist:" ++ playlistID)%string)
                           (Some (if shuffle
                                  then draw mod int_wrap (TracksTotal playlist)
                                  else 0))) ]).
Proof.
  intros Hdev Htarget Hres Hget Hpos Hplay.
  rewrite (PlayPlaylist_prefix EqualFold fuel client draw deviceName
             playlistInput shuffle devices target playlistID calls playlist _
             Hdev Htarget Hres Hget eq_refl).
  cbv zeta. destruct shuffle.
  - unfold Intn.
    assert (Hn : (int_wrap (TracksTotal playlist) <=? 0) = false)
      by (apply Z.leb_gt; now apply Hpos).
    rewrite Hn, bind_ret. unfold callPlayOpt.
    rewrite bind_emit_ret. cbn [OptDeviceID PlaybackContext]. now rewrite Hplay.
  - unfold callPlayOpt.
    rewrite bind_emit_ret. cbn [OptDeviceID PlaybackContext]. now rewrite Hplay.
Qed.

(** X13.  A play without shuffle starts at position 0 whatever the track
    count is (an empty playlist included: the count is not looked at), says
    "starting at track 1", and neither waits nor touches shuffle. *)
Theorem PlayPlaylist_from_the_top
        (fuel : nat) (client : Client) (draw : Z)
        (deviceName playlistInput : string)
        (devices : list PlayerDevice) (target : PlayerDevice)
        (playlistID : string) (calls : list Event) (playlist : FullPlaylist) :
  PlayerDevices client = Ok devices ->
  nth_error devices (targetIndex deviceName devices) = Some target ->
  resolvePlaylistIDQuiet EqualFold fuel client playlistInput
  = (Done (Ok playlistID), calls) ->
  GetPlaylist client playlistID = Ok playlist ->
  PlayOpt client (mkPlayOptions
                    (Some (DeviceID target))
                    (Some ("spotify:playlist:" ++ playlistID)%string)
                    (Some 0)) = None ->
  PlayPlaylist EqualFold fuel (Some client) draw deviceName playlistInput false
  = (Done (Ok ("Now playing " ++ dquote ++ FullName playlist ++ dquote
               ++ " on " ++ DeviceName target
               ++ " (starting at track 1)")%string),
     CallPlayerDevices
       :: calls
       ++ [ CallGetPlaylist playlistID;
            CallPlayOpt (mkPlayOptions
                           (Some (DeviceID target))
                           (Some ("spotify:playlist:" ++ playlistID)%string)
                           (Some 0)) ]).
Proof.
  intros Hdev Htarget Hres Hget Hplay.
  rewrite (PlayPlaylist_prefix EqualFold fuel client draw deviceName
             playlistInput false devices target playlistID calls playlist _
             Hdev Htarget Hres Hget eq_refl).
  cbv zeta. unfold callPlayOpt.
  rewrite bind_emit_ret. cbn [OptDeviceID PlaybackContext]. now rewrite Hplay.
Qed.

End PlayRuns.

(* ================================================================== *)
(** ** What the HTTP handlers answer                                    *)
(* ================================================================== *)

Section Handlers.

Variable EqualFold : string -> string -> bool.

Local Open Scope list_scope.

(** The texts [PlayPlaylist] returns. *)
Lemma PlayPlaylist_texts
      (fuel : nat) (spotifyClient : option Client) (draw : Z)
      (deviceName playlistInput : string) (shuffle : bool) :
  (forall message,
      outcome (PlayPlaylist EqualFold fuel spotifyClient draw deviceName
                            playlistInput shuffle) = Done (Ok message) ->
      HasPrefix message "Now playing " = true)
  /\ (forall err,
         outcome (PlayPlaylist EqualFold fuel spotifyClient draw deviceName
                               playlistInput shuffle) = Done (Err err) ->
         ErrorText err <> EmptyString).
Proof.
  split; intros x; play_cases; cbn [outcome fst]; intros H;
    try discriminate; injection H as <-;
    try (apply (HasPrefix_app "Now playing ")); discriminate.
Qed.

Lemma PlayPlaylist_no_session
      (fuel : nat) (draw : Z) (deviceName playlistInput : string)
      (shuffle : bool) :
  PlayPlaylist EqualFold fuel None draw deviceName playlistInput shuffle
  = (Done (Err notAuthenticated), []).
Proof. reflexivity. Qed.

(** X14.  Every answer of [handlePlayRequest] is a well-formed envelope:
    JSON content type; status 200, 400, 401 or 500; [success] is true
    exactly for status 200; a success carries a message that starts with
    "Now playing " and no error text; a failure carries a non-empty error
    text and no message. *)
Theorem handlePlayRequest_envelope
        (fuel : nat) (apiAccessToken : string)
        (spotifyClient : option Client) (draw : Z) (r : Request)
        (response : Response) :
  outcome (handlePlayRequest EqualFold fuel apiAccessToken spotifyClient draw r)
  = Done response ->
  ContentType response = "application/json"
  /\ (Code response = 200 \/ Code response = 400
      \/ Code response = 401 \/ Code response = 500)
  /\ (Success (Body response) = true <-> Code response = 200)
  /\ (Success (Body response) = true ->
      Error (Body response) = EmptyString
      /\ HasPrefix (Message (Body response)) "Now playing " = true)
  /\ (Success (Body response) = false ->
      Message (Body response) = EmptyString
      /\ Error (Body response) <> EmptyString).
Proof.
  unfold handlePlayRequest.
  destruct (negb (String.eqb (requestToken r) apiAccessToken)).
  { cbn [outcome ret fst]. intros H. injection H as <-. cbn.
    repeat split; try tauto; try discriminate. }
  destruct (String.eqb (Get (Query r) "playlist") EmptyString).
  { cbn [outcome ret fst]. intros H. injection H as <-. cbn.
    repeat split; try tauto; try discriminate. }
  pose proof (PlayPlaylist_texts fuel spotifyClient draw
                (Get (Query r) "device") (Get (Query r) "playlist")
                (String.eqb (ToLower (Get (Query r) "shuffle")) "true"))
    as [Hok Herr].
  destruct (PlayPlaylist EqualFold fuel spotifyClient draw
              (Get (Query r) "device") (Get (Query r) "playlist")
              (String.eqb (ToLower (Get (Query r) "shuffle")) "true"))
    as [[[message|err]| | |] t];
    cbn [bind outcome ret fst] in *; intros H; try discriminate;
    injection H as <-; cbn.
  - specialize (Hok message eq_refl).
    repeat split; try tauto; try discriminate; exact Hok.
  - specialize (Herr err eq_refl).
    repeat split; try tauto; try discriminate; exact Herr.
Qed.

(** X15.  [handlePlayRequest] reaches the remote service only for a
    request that presents the configured token, names a playlist, and
    arrives while a session exists: any event at all in its run implies
    these three. *)
Theorem handlePlayRequest_guards_remote
        (fuel : nat) (apiAccessToken : string)
        (spotifyClient : option Client) (draw : Z) (r : Request) (e : Event) :
  In e (trace (handlePlayRequest EqualFold fuel apiAccessToken spotifyClient
                                 draw r)) ->
  requestToken r = apiAccessToken
  /\ Get (Query r) "playlist" <> EmptyString
  /\ spotifyClient <> None.
Proof.
  unfold handlePlayRequest.
  destruct (String.eqb (requestToken r) apiAccessToken) eqn:Etok;
    cbn [negb]; [|intros []].
  destruct (String.eqb (Get (Query r) "playlist") EmptyString) eqn:Epl;
    [intros []|].
  apply String.eqb_eq in Etok. apply String.eqb_neq in Epl.
  destruct spotifyClient as [client|].
  - intros _. repeat split; [exact Etok | exact Epl | discriminate].
  - rewrite PlayPlaylist_no_session. intros [].
Qed.

(** X16.  The two ways of presenting the token are interchangeable: a
    request with the token in the [token] query parameter and a request
    with the same token as [Authorization: Bearer] (and no [token]
    parameter), alike in [device], [playlist] and [shuffle], are answered
    alike by [handlePlayRequest] and by [handlePauseRequest]. *)
Theorem token_channels_interchangeable
        (fuel : nat) (apiAccessToken : string)
        (spotifyClient : option Client) (draw : Z)
        (byQuery byHeader : Request) (token : string) :
  token <> EmptyString ->
  Get (Query byQuery) "token" = token ->
  Get (Query byHeader) "token" = EmptyString ->
  Get (Header byHeader) "Authorization" = ("Bearer " ++ token)%string ->
  Get (Query byQuery) "device" = Get (Query byHeader) "device" ->
  Get (Query byQuery) "playlist" = Get (Query byHeader) "playlist" ->
  Get (Query byQuery) "shuffle" = Get (Query byHeader) "shuffle" ->
  handlePlayRequest EqualFold fuel apiAccessToken spotifyClient draw byQuery
  = handlePlayRequest EqualFold fuel apiAccessToken spotifyClient draw byHeader
  /\ handlePauseRequest apiAccessToken spotifyClient byQuery
     = handlePauseRequest apiAccessToken spotifyClient byHeader.
Proof.
  intros Hne Hq Hnone Hh Hdev Hpl Hsh.
  assert (Htok : requestToken byQuery = requestToken byHeader).
  { rewrite (requestToken_bearer byHeader token Hnone Hh).
    rewrite requestToken_query; [exact Hq | congruence]. }
  unfold handlePlayRequest, handlePauseRequest.
  now rewrite Htok, Hdev, Hpl, Hsh.
Qed.

(** X17.  The [token] query parameter, when present, is the only token
    looked at: a request whose query token is wrong is answered 401 by
    [handlePlayRequest] whatever its [Authorization] header says, a
    correct bearer token included. *)
Theorem wrong_query_token_is_final
        (fuel : nat) (apiAccessToken : string)
        (spotifyClient : option Client) (draw : Z) (r : Request) :
  Get (Query r) "token" <> EmptyString ->
  Get (Query r) "token" <> apiAccessToken ->
  handlePlayRequest EqualFold fuel apiAccessToken spotifyClient draw r
  = (Done (mkResponse 401 "application/json" invalidTokenBody), []).
Proof.
  intros Hpresent Hwrong. unfold handlePlayRequest.
  rewrite (requestToken_query r Hpresent).
  apply String.eqb_neq in Hwrong. now rewrite Hwrong.
Qed.

(** X18.  The three protected endpoints turn away the same requests:
    [handleAuthRequest], [handlePlayRequest] and [handlePauseRequest]
    each answer 401 exactly when the token the request presents differs
    from the configured one. *)
Theorem protected_endpoints_agree
        (fuel : nat) (authURL : string -> string) (apiAccessToken : string)
        (spotifyClient : option Client) (draw : Z) (r : Request) :
  (requestToken r <> apiAccessToken
   <-> handleAuthRequest authURL apiAccessToken r
       = HttpError "Unauthorized: Invalid or missing access token" 401)
  /\ (requestToken r <> apiAccessToken
      <-> exists response,
          outcome (handlePlayRequest EqualFold fuel apiAccessToken
                                     spotifyClient draw r) = Done response
          /\ Code response = 401)
  /\ (requestToken r <> apiAccessToken
      <-> exists response,
          outcome (handlePauseRequest apiAccessToken spotifyClient r)
          = Done response
          /\ Code response = 401).
Proof.
  assert (Hplay : forall response,
             outcome (handlePlayRequest EqualFold fuel apiAccessToken
                                        spotifyClient draw r) = Done response ->
             Code response = 401 -> requestToken r <> apiAccessToken).
  { intros response H Hcode Heq. unfold handlePlayRequest in H.
    apply String.eqb_eq in Heq. rewrite Heq in H. cbn [negb] in H.
    destruct (String.eqb (Get (Query r) "playlist") EmptyString).
    - cbn in H. injection H as <-. discriminate.
    - destruct (PlayPlaylist EqualFold fuel spotifyClient draw
                  (Get (Query r) "device") (Get (Query r) "playlist")
                  (String.eqb (ToLower (Get (Query r) "shuffle")) "true"))
        as [[[message|err]| | |] t]; cbn in H; try discriminate;
        injection H as <-; discriminate. }
  assert (Hpause : forall response,
             outcome (handlePauseRequest apiAccessToken spotifyClient r)
             = Done response ->
             Code response = 401 -> requestToken r <> apiAccessToken).
  { intros response H Hcode Heq. unfold handlePauseRequest in H.
    apply String.eqb_eq in Heq. rewrite Heq in H. cbn [negb] in H.
    destruct spotifyClient as [client|]; cbn in H.
    - destruct (Pause client); cbn in H; injection H as <-; discriminate.
    - injection H as <-. discriminate. }
  split; [|split]; split.
  - intros Hne. unfold handleAuthRequest.
    apply String.eqb_neq in Hne. now rewrite Hne.
  - unfold handleAuthRequest.
    destruct (String.eqb (requestToken r) apiAccessToken) eqn:E; cbn [negb].
    + discriminate.
    + intros _. now apply String.eqb_neq.
  - intros Hne. unfold handlePlayRequest.
    apply String.eqb_neq in Hne. rewrite Hne. now eexists.
  - intros (response & H & Hcode). exact (Hplay response H Hcode).
  - intros Hne. unfold handlePauseRequest.
    apply String.eqb_neq in Hne. rewrite Hne. now eexists.
  - intros (response & H & Hcode). exact (Hpause response H Hcode).
Qed.

(** X19.  [handlePauseRequest] always answers; it sends the pause command
    exactly when the request presents the configured token and a session
    exists, sends nothing else, and answers 200 exactly when that command
    was sent and accepted. *)
Theorem handlePauseRequest_command
        (apiAccessToken : string) (spotifyClient : option Client)
        (r : Request) :
  exists response,
    outcome (handlePauseRequest apiAccessToken spotifyClient r) = Done response
    /\ (trace (handlePauseRequest apiAccessToken spotifyClient r)
        = if String.eqb (requestToken r) apiAccessToken
          then match spotifyClient with
               | Some _ => [CallPause]
               | None => []
               end
          else [])
    /\ (Code response = 200
        <-> requestToken r = apiAccessToken
            /\ exists client, spotifyClient = Some client
                              /\ Pause client = None).
Proof.
  unfold handlePauseRequest.
  destruct (String.eqb (requestToken r) apiAccessToken) eqn:Etok; cbn [negb].
  - apply String.eqb_eq in Etok.
    destruct spotifyClient as [client|]; cbn.
    + destruct (Pause client) as [err|] eqn:Ep; cbn;
        eexists; (split; [reflexivity|]); (split; [reflexivity|]); cbn; split.
      * discriminate.
      * intros (_ & c & Hc & Hp). injection Hc as <-. congruence.
      * intros _. split; [exact Etok|]. now exists client.
      * reflexivity.
    + eexists. split; [reflexivity|]. split; [reflexivity|]. cbn. split.
      * discriminate.
      * intros (_ & c & Hc & _). discriminate.
  - apply String.eqb_neq in Etok.
    eexists. split; [reflexivity|]. split; [reflexivity|]. cbn. split.
    + discriminate.
    + intros [H _]. contradiction.
Qed.

(** X20.  A lister that fails on the first page shows through the whole
    stack: for a request with the right token whose playlist is a name to
    search for, [handlePlayRequest] answers 500 with the error text
    "failed to resolve playlist: failed to get playlists: " followed by
    the lister's own text; the metadata is not fetched and no play
    command is sent. *)
Theorem handlePlayRequest_lister_failure
        (fuel : nat) (apiAccessToken : string) (client : Client) (draw : Z)
        (r : Request) (devices : list PlayerDevice) (err : error) :
  requestToken r = apiAccessToken ->
  Contains (Get (Query r) "playlist") playlistMarker = false ->
  String.length (Get (Query r) "playlist") <> 22%nat
  \/ Contains (Get (Query r) "playlist") " " = true ->
  Get (Query r) "playlist" <> EmptyString ->
  PlayerDevices client = Ok devices ->
  devices <> [] ->
  CurrentUsersPlaylists client 50 0 = Err err ->
  (0 < fuel)%nat ->
  handlePlayRequest EqualFold fuel apiAccessToken (Some client) draw r
  = (Done (mkResponse 500 "application/json"
             (mkAPIResponse false EmptyString
                ("failed to resolve playlist: failed to get playlists: "
                 ++ ErrorText err)%string)),
     [CallPlayerDevices; CallCurrentUsersPlaylists 50 0]).
Proof.
  intros Htok Hlink Hbare Hname Hdev Hne Herr Hfuel.
  unfold handlePlayRequest.
  apply String.eqb_eq in Htok. apply String.eqb_neq in Hname.
  rewrite Htok, Hname. cbn [negb].
  unfold PlayPlaylist, callPlayerDevices.
  rewrite bind_emit_ret, Hdev.
  assert (Hlen : (len devices =? 0) = false) by (now destruct devices).
  rewrite Hlen.
  destruct (targetIndex_in_range (Get (Query r) "device") devices Hne)
    as [target Htarget].
  rewrite (bind_element _ _ _ _ Htarget).
  unfold resolvePlaylistIDQuiet. rewrite Hlink, (not_bare_id _ Hbare).
  destruct fuel as [|fuel]; [lia|]. cbv zeta.
  rewrite pageLoopQuiet_S, bind_callCurrentUsersPlaylists, Herr.
  reflexivity.
Qed.

End Handlers.

(* ================================================================== *)
(** ** Start-up                                                         *)
(* ================================================================== *)

Section StartUp.

Lemma default_when_empty (value fallback : string) :
  fallback <> EmptyString ->
  (if String.eqb value EmptyString then fallback else value) <> EmptyString.
Proof.
  intros Hf. destruct (String.eqb value EmptyString) eqn:E; [exact Hf|].
  now apply String.eqb_neq.
Qed.

(** X21.  [main] hands over only validated settings.  When it starts the
    server, the client ID, the client secret and the API access token are
    non-empty; when it starts the command line, ID and secret are
    non-empty and, unless a listing or pause was asked for, so is the
    playlist.  Redirect URI and token file are never empty.  Device and
    playlist are the flag's value when the flag is given and the
    environment's otherwise. *)
Theorem main_hands_over_valid_settings
        (flags : Flags) (getenv : string -> string) :
  (forall settings,
      main flags getenv = RunServerMode settings ->
      serverMode flags = true
      /\ settingClientID settings <> EmptyString
      /\ settingClientSecret settings <> EmptyString
      /\ settingAPIAccessToken settings <> EmptyString
      /\ settingRedirectURI settings <> EmptyString
      /\ settingTokenFile settings <> EmptyString)
  /\ (forall settings flags' deviceName playlistID,
         main flags getenv = RunCLIMode settings flags' deviceName playlistID ->
         flags' = flags
         /\ serverMode flags = false
         /\ settingClientID settings <> EmptyString
         /\ settingClientSecret settings <> EmptyString
         /\ settingRedirectURI settings <> EmptyString
         /\ settingTokenFile settings <> EmptyString
         /\ (listDevices flags = false -> listPlaylists flags = false ->
             pauseMode flags = false -> playlistID <> EmptyString)
         /\ playlistID = (if String.eqb (playlistFlag flags) EmptyString
                          then getenv "SPOTIFY_PLAYLIST_ID"
                          else playlistFlag flags)
         /\ deviceName = (if String.eqb (deviceFlag flags) EmptyString
                          then getenv "SPOTIFY_DEVICE_NAME"
                          else deviceFlag flags)).
Proof.
  unfold main.
  destruct (String.eqb (getenv "SPOTIFY_CLIENT_ID") EmptyString) eqn:Eid;
    cbn [orb]; [split; intros; discriminate|].
  destruct (String.eqb (getenv "SPOTIFY_CLIENT_SECRET") EmptyString) eqn:Esec;
    [split; intros; discriminate|].
  apply String.eqb_neq in Eid. apply String.eqb_neq in Esec.
  set (playlistID := if String.eqb (playlistFlag flags) EmptyString
                     then getenv "SPOTIFY_PLAYLIST_ID" else playlistFlag flags).
  destruct (String.eqb playlistID EmptyString && negb (listDevices flags)
            && negb (listPlaylists flags) && negb (serverMode flags)
            && negb (pauseMode flags)) eqn:Eplay;
    [split; intros; discriminate|].
  destruct (serverMode flags) eqn:Eserver; cbn [andb].
  - destruct (String.eqb (getenv "API_ACCESS_TOKEN") EmptyString) eqn:Etok;
      [split; intros; discriminate|].
    apply String.eqb_neq in Etok.
    split; [|intros; discriminate].
    intros settings H. injection H as <-. cbn.
    repeat split; try assumption; now apply default_when_empty.
  - split; [intros; discriminate|].
    intros settings flags' deviceName pl H. injection H as <- <- <- <-. cbn.
    repeat split; try assumption; try (now apply default_when_empty).
    intros Hd Hp Hpause Hempty.
    rewrite Hd, Hp, Hpause in Eplay. cbn in Eplay.
    rewrite !andb_true_r in Eplay.
    apply String.eqb_neq in Eplay. contradiction.
Qed.

(** X22.  No token, no service: in a server that [main] has started, a
    request that presents no token at all (no [token] parameter, no
    [Authorization] header) is answered 401 by the play handler and by
    the pause handler, and nothing is sent to the remote service. *)
Theorem started_server_rejects_tokenless_requests
        (EqualFold : string -> string -> bool)
        (flags : Flags) (getenv : string -> string) (settings : Settings)
        (fuel : nat) (spotifyClient : option Client) (draw : Z) (r : Request) :
  main flags getenv = RunServerMode settings ->
  Get (Query r) "token" = EmptyString ->
  Get (Header r) "Authorization" = EmptyString ->
  handlePlayRequest EqualFold fuel (settingAPIAccessToken settings)
                    spotifyClient draw r
  = (Done (mkResponse 401 "application/json" invalidTokenBody), [])
  /\ handlePauseRequest (settingAPIAccessToken settings) spotifyClient r
     = (Done (mkResponse 401 "application/json" invalidTokenBody), []).
Proof.
  intros Hmain Hq Hh.
  assert (Htok : settingAPIAccessToken settings <> EmptyString).
  { revert Hmain. unfold main.
    destruct (String.eqb (getenv "SPOTIFY_CLIENT_ID") EmptyString
              || String.eqb (getenv "SPOTIFY_CLIENT_SECRET") EmptyString);
      [discriminate|].
    match goal with |- context [if ?c then ExitFatal _ else _] =>
      destruct c; [discriminate|] end.
    destruct (serverMode flags); cbn [andb]; [|discriminate].
    destruct (String.eqb (getenv "API_ACCESS_TOKEN") EmptyString) eqn:E;
      [discriminate|].
    intros H. injection H as <-. cbn. now apply String.eqb_neq. }
  assert (Hreq : requestToken r = EmptyString).
  { unfold requestToken, TrimPrefix. now rewrite Hq, Hh. }
  assert (Hneq : String.eqb (requestToken r) (settingAPIAccessToken settings)
                 = false).
  { rewrite Hreq. apply String.eqb_neq. congruence. }
  unfold handlePlayRequest, handlePauseRequest. now rewrite Hneq.
Qed.

End StartUp.

(* ================================================================== *)
(** ** The OAuth callback                                               *)
(* ================================================================== *)

(** X23.  [handleAuthCallback] hands a token to [saveToken] and replaces
    the session exactly when the token exchange succeeded and the [state]
    form value is the expected one, and then it is the token of that
    exchange that is saved and installed; every other callback is
    answered 403 and leaves credential file and session as they were. *)
Theorem handleAuthCallback_saves_iff
        (Token : Type) (exchange : result Token) (formState : string) :
  let result := handleAuthCallback Token exchange formState in
  SessionToken Token result = SavedToken Token result
  /\ (forall tok, SavedToken Token result = Some tok
                  <-> exchange = Ok tok /\ formState = state)
  /\ (SavedToken Token result = None
      <-> exists msg, CallbackReply Token result = HttpError msg 403).
Proof.
  unfold handleAuthCallback.
  destruct exchange as [tok|err]; cbn.
  - destruct (String.eqb formState state) eqn:E; cbn.
    + apply String.eqb_eq in E. split; [reflexivity|]. split.
      * intros tok'. split.
        -- intros H. injection H as <-. now split.
        -- intros [H _]. now injection H as <-.
      * split; [discriminate | intros [msg H]; discriminate].
    + apply String.eqb_neq in E. split; [reflexivity|]. split.
      * intros tok'. split; [discriminate | intros [_ H]; contradiction].
      * split; [intros _; now eexists | reflexivity].
  - split; [reflexivity|]. split.
    + intros tok. split; [discriminate | intros [H _]; discriminate].
    + split; [intros _; now eexists | reflexivity].
Qed.

(* ================================================================== *)
(** ** The command line's device selection                              *)
(* ================================================================== *)

Section CommandLineSelection.

Local Open Scope list_scope.

Lemma chooseDevice_run (devices : list PlayerDevice) (deviceName : string)
      (found : option nat) (prints : list Event) (target : PlayerDevice) :
  listAndFindTarget deviceName devices 0 None = (Done found, prints) ->
  nth_error devices (match found with
                     | Some i => i
                     | None => match findActive devices 0 with
                               | Some i => i
                               | None => 0%nat
                               end
                     end) = Some target ->
  exists output, chooseDevice devices deviceName = (Done target, output).
Proof.
  intros Hrun Hnth. unfold chooseDevice.
  rewrite bind_emit, Hrun, bind_done.
  destruct found as [i|].
  - rewrite (bind_element _ _ _ _ Hnth), bind_emit.
    cbn [outcome trace fst snd ret]. now eexists.
  - destruct (negb (String.eqb deviceName EmptyString)).
    + rewrite bind_emit, (bind_element _ _ _ _ Hnth), bind_emit.
      cbn [outcome trace fst snd ret]. now eexists.
    + rewrite bind_ret, (bind_element _ _ _ _ Hnth), bind_emit.
      cbn [outcome trace fst snd ret]. now eexists.
Qed.

Lemma first_index_nth (p : PlayerDevice -> bool) (devices : list PlayerDevice)
      (i : nat) :
  first_index p devices i ->
  exists device, nth_error devices i = Some device /\ p device = true.
Proof. now intros [H _]. Qed.

(** X24.  On a non-empty device list the selection of the command line
    ([handlePlayPlaylist]) always ends on a device of that list; when some
    device answers the hint it is the last such device in listed order,
    and otherwise the first active device or, with none active, the first
    device. *)
Theorem chooseDevice_in_list
        (devices : list PlayerDevice) (deviceName : string) :
  devices <> [] ->
  exists target output i,
    chooseDevice devices deviceName = (Done target, output)
    /\ nth_error devices i = Some target
    /\ ((last_index (matchesHint deviceName) devices i)
        \/ ((forall device, In device devices ->
                            matchesHint deviceName device = false)
            /\ (first_index Active devices i
                \/ ((forall device, In device devices -> Active device = false)
                    /\ i = 0%nat)))).
Proof.
  intros Hne.
  destruct (listAndFindTarget_last deviceName devices 0 None)
    as (found & prints & Hrun & Hfound).
  destruct Hfound as [[-> Hnone]|(j & -> & Hlast)].
  - destruct (findActive devices 0) as [i|] eqn:EA.
    + destruct (findActive_Some _ _ _ EA) as [_ Hfirst].
      rewrite Nat.sub_0_r in Hfirst.
      destruct (first_index_nth _ _ _ Hfirst) as (target & Hnth & _).
      destruct (chooseDevice_run devices deviceName None prints target Hrun)
        as [output Hout]; [now rewrite EA|].
      exists target, output, i. split; [exact Hout|]. split; [exact Hnth|].
      right. split; [exact Hnone | now left].
    + destruct devices as [|target rest]; [congruence|].
      destruct (chooseDevice_run (target :: rest) deviceName None prints target
                                 Hrun) as [output Hout]; [now rewrite EA|].
      exists target, output, 0%nat. split; [exact Hout|].
      split; [reflexivity|].
      right. split; [exact Hnone|]. right.
      split; [exact (findActive_None _ _ EA) | reflexivity].
  - destruct Hlast as [[target [Hnth Hp]] Hafter].
    destruct (chooseDevice_run devices deviceName (Some (0 + j)%nat) prints
                               target Hrun) as [output Hout]; [exact Hnth|].
    exists target, output, j. split; [exact Hout|]. split; [exact Hnth|].
    left. split; [now exists target | exact Hafter].
Qed.

Lemma selection_agrees
      (devices : list PlayerDevice) (deviceName : string) :
  devices <> [] ->
  (forall i j di dj,
      nth_error devices i = Some di -> nth_error devices j = Some dj ->
      matchesHint deviceName di = true -> matchesHint deviceName dj = true ->
      i = j) ->
  exists target output,
    chooseDevice devices deviceName = (Done target, output)
    /\ nth_error devices (targetIndex deviceName devices) = Some target.
Proof.
  intros Hne Hunique.
  destruct (listAndFindTarget_last deviceName devices 0 None)
    as (found & prints & Hrun & Hfound).
  destruct (targetIndex_in_range deviceName devices Hne) as [target Htarget].
  exists target.
  assert (Hsame : (match found with
                   | Some i => i
                   | None => match findActive devices 0 with
                             | Some i => i
                             | None => 0%nat
                             end
                   end) = targetIndex deviceName devices).
  { unfold targetIndex.
    destruct Hfound as [[-> Hnone]|(j & -> & [[dj [Hj Hpj]] _])].
    - destruct (findTarget deviceName devices 0) as [i|] eqn:ET; [|reflexivity].
      destruct (findTarget_Some _ _ _ _ ET) as [_ [[d [Hd Hp]] _]].
      rewrite (Hnone d) in Hp; [discriminate|].
      eapply nth_error_In. exact Hd.
    - destruct (findTarget deviceName devices 0) as [i|] eqn:ET.
      + destruct (findTarget_Some _ _ _ _ ET) as [_ [[d [Hd Hp]] _]].
        rewrite Nat.sub_0_r in Hd. simpl.
        exact (Hunique _ _ _ _ Hj Hd Hpj Hp).
      + rewrite (findTarget_None _ _ _ ET dj) in Hpj; [discriminate|].
        eapply nth_error_In. exact Hj. }
  destruct (chooseDevice_run devices deviceName found prints target Hrun)
    as [output Hout]; [now rewrite Hsame|].
  exists output. now split.
Qed.

(** X25.  Command line and server select the same device whenever at
    most one device answers the hint: then the device [handlePlayPlaylist]
    ends on is the device at [PlayPlaylist]'s target index. *)
Theorem command_line_and_server_select_alike
        (devices : list PlayerDevice) (deviceName : string) :
  devices <> [] ->
  (forall i j di dj,
      nth_error devices i = Some di -> nth_error devices j = Some dj ->
      matchesHint deviceName di = true -> matchesHint deviceName dj = true ->
      i = j) ->
  exists target output,
    chooseDevice devices deviceName = (Done target, output)
    /\ nth_error devices (targetIndex deviceName devices) = Some target.
Proof. exact (selection_agrees devices deviceName). Qed.

End CommandLineSelection.

(* ================================================================== *)
(** ** Command line and server, side by side                            *)
(* ================================================================== *)

Section SideBySide.

Variable EqualFold : string -> string -> bool.

Local Open Scope list_scope.

Lemma remote_calls_bind_done {A B : Type} (a : A) (t : list Event)
      (k : A -> M B) :
  remote_calls (bind (Done a, t) k)
  = filter is_remote_call t ++ remote_calls (k a).
Proof. rewrite bind_done. unfold remote_calls. cbn. apply filter_app. Qed.

Lemma filter_remote_devices (t : list Event) :
  filter is_remote_call (CallPlayerDevices :: t)
  = CallPlayerDevices :: filter is_remote_call t.
Proof. reflexivity. Qed.

Lemma filter_remote_metadata (id : string) (t : list Event) :
  filter is_remote_call (CallGetPlaylist id :: t)
  = CallGetPlaylist id :: filter is_remote_call t.
Proof. reflexivity. Qed.

Lemma filter_remote_silent (t : list Event) :
  filter is_remote_call (filter (fun e => negb (is_stdout e)) t)
  = filter is_remote_call t.
Proof.
  induction t as [|e t IH]; [reflexivity|].
  destruct e; cbn; rewrite ?IH; reflexivity.
Qed.

(** The narrated resolver without its output is the silent resolver. *)
Lemma resolvePlaylistID_without_output (fuel : nat) (client : Client)
      (input : string) :
  silent (resolvePlaylistID EqualFold fuel client input)
  = resolvePlaylistIDQuiet EqualFold fuel client input.
Proof.
  unfold resolvePlaylistID, resolvePlaylistIDQuiet.
  destruct (Contains input playlistMarker); [reflexivity|].
  destruct ((strlen input =? 22) && negb (Contains input " "));
    [reflexivity|].
  rewrite silent_bind, silent_stdout, bind_ret.
  rewrite silent_bind, silent_pageLoop.
  apply bind_ext. intros [returned|]; [reflexivity|].
  now rewrite silent_bind, silent_stdout, bind_ret.
Qed.

Lemma listAndFindTarget_output (deviceName : string)
      (devices : list PlayerDevice) (i : nat) (targetDevice : option nat) :
  filter is_remote_call
         (trace (listAndFindTarget deviceName devices i targetDevice)) = [].
Proof.
  revert i targetDevice.
  induction devices as [|device rest IH]; intros i targetDevice;
    [reflexivity|].
  rewrite listAndFindTarget_cons, bind_emit. cbn [trace snd filter is_remote_call].
  apply IH.
Qed.

Lemma chooseDevice_output (devices : list PlayerDevice) (deviceName : string) :
  filter is_remote_call (trace (chooseDevice devices deviceName)) = [].
Proof.
  unfold chooseDevice. rewrite bind_emit.
  cbn [trace snd filter is_remote_call].
  pose proof (listAndFindTarget_output deviceName devices 0 None) as Hlist.
  destruct (listAndFindTarget deviceName devices 0 None) as [[found| | |] t];
    cbn [trace snd] in Hlist; try exact Hlist.
  rewrite bind_done. cbn [trace snd]. rewrite filter_app, Hlist. cbn [app].
  unfold element.
  destruct found as [i|].
  - destruct (nth_error devices i); [|reflexivity].
    now rewrite bind_ret, bind_emit.
  - destruct (negb (String.eqb deviceName EmptyString));
      rewrite ?bind_emit, ?bind_ret; cbn [trace snd filter is_remote_call];
      (destruct (nth_error devices _); [|reflexivity]);
      now rewrite bind_ret, bind_emit.
Qed.

(** X26.  Command line and server play alike.  On the same non-empty
    device list, with at most one device answering the hint, the run of
    [handlePlayPlaylist] and the run of [PlayPlaylist] make the same
    remote calls in the same order (the server's device fetch apart, which
    the command line has already done), and they end alike: both succeed,
    or the server returns an error where the command line exits, or both
    panic. *)
Theorem command_line_plays_like_server
        (fuel : nat) (client : Client) (draw : Z)
        (devices : list PlayerDevice)
        (deviceName playlistInput : string) (shuffle : bool) :
  PlayerDevices client = Ok devices ->
  devices <> [] ->
  (forall i j di dj,
      nth_error devices i = Some di -> nth_error devices j = Some dj ->
      matchesHint deviceName di = true -> matchesHint deviceName dj = true ->
      i = j) ->
  remote_calls (PlayPlaylist EqualFold fuel (Some client) draw deviceName
                             playlistInput shuffle)
  = CallPlayerDevices
      :: remote_calls (handlePlayPlaylist EqualFold fuel client draw devices
                                          deviceName playlistInput shuffle)
  /\ same_ending
       (outcome (PlayPlaylist EqualFold fuel (Some client) draw deviceName
                              playlistInput shuffle))
       (outcome (handlePlayPlaylist EqualFold fuel client draw devices
                                    deviceName playlistInput shuffle)).
Proof.
  intros Hdev Hne Hunique.
  destruct (selection_agrees devices deviceName Hne Hunique)
    as (target & output & Hchoose & Htarget).
  pose proof (chooseDevice_output devices deviceName) as Hquiet.
  rewrite Hchoose in Hquiet. cbn [trace snd] in Hquiet.
  pose proof (resolvePlaylistID_without_output fuel client playlistInput)
    as Hsilent.
  pose proof (resolvePlaylistIDQuiet_shape EqualFold fuel client playlistInput)
    as [Hshape _].
  unfold PlayPlaylist, handlePlayPlaylist, callPlayerDevices.
  rewrite bind_emit_ret, Hdev.
  assert (Hlen : (len devices =? 0) = false) by (now destruct devices).
  rewrite Hlen, (bind_element _ _ _ _ Htarget), Hchoose.
  destruct (resolvePlaylistID EqualFold fuel client playlistInput)
    as [on tn].
  destruct (resolvePlaylistIDQuiet EqualFold fuel client playlistInput)
    as [oq tq].
  unfold silent in Hsilent. cbn [outcome trace fst snd] in Hsilent, Hshape.
  injection Hsilent as -> <-.
  unfold remote_calls. cbn [outcome trace fst snd].
  rewrite filter_remote_devices, bind_done. cbn [outcome trace fst snd].
  rewrite filter_app, Hquiet. cbn [app].
  destruct oq as [[playlistID|err]| | |];
    try (destruct Hshape as [[r Hr]|Hr]; discriminate).
  - rewrite !bind_done. cbn [outcome trace fst snd].
    rewrite !filter_app, filter_remote_silent.
    unfold callGetPlaylist. rewrite !bind_emit_ret.
    cbn [outcome trace fst snd]. rewrite !filter_remote_metadata.
    destruct (GetPlaylist client playlistID) as [playlist|err].
    + cbv zeta. destruct shuffle.
      * unfold Intn.
        destruct (int_wrap (TracksTotal playlist) <=? 0).
        -- cbn. split; reflexivity.
        -- rewrite !bind_ret. unfold callPlayOpt. rewrite !bind_emit_ret.
           cbn [OptDeviceID PlaybackContext].
           destruct (PlayOpt client _) as [err|].
           ++ cbn. split; [reflexivity | exact I].
           ++ rewrite !bind_emit. unfold callShuffle. rewrite !bind_emit_ret.
              destruct (Shuffle client true) as [err|]; cbn;
                (split; [reflexivity | exact I]).
      * unfold callPlayOpt. rewrite !bind_emit_ret.
        cbn [OptDeviceID PlaybackContext].
        destruct (PlayOpt client _) as [err|]; cbn;
          (split; [reflexivity | exact I]).
    + cbn. split; [reflexivity | exact I].
  - rewrite !bind_done. cbn. rewrite !app_nil_r, filter_remote_silent.
    split; [reflexivity | exact I].
  - cbn. rewrite filter_remote_silent. split; [reflexivity | exact I].
Qed.

End SideBySide.

(* ================================================================== *)
(** ** Where a resolved ID comes from                                   *)
(* ================================================================== *)

Section Provenance.

Variable EqualFold : string -> string -> bool.
Variable client : Client.
Variable input : string.

Lemma scanPageQuiet_entry (page : list SimplePlaylist) (id : string) :
  scanPageQuiet EqualFold input page = Some id ->
  exists entry, In entry page /\ PlaylistID entry = id
                /\ entry_matches EqualFold input entry = true.
Proof.
  rewrite scanPageQuiet_find.
  destruct (find (entry_matches EqualFold input) page) as [entry|] eqn:E;
    [|discriminate].
  intros H. injection H as <-. apply find_some in E.
  exists entry. now repeat split.
Qed.

Lemma pageLoopQuiet_provenance (fuel : nat) (offset : Z) (id : string) :
  outcome (pageLoopQuiet EqualFold fuel client input 50 offset)
  = Done (Some (Ok id)) ->
  exists offset' page entry,
    CurrentUsersPlaylists client 50 offset' = Ok page
    /\ In entry page /\ PlaylistID entry = id
    /\ entry_matches EqualFold input entry = true.
Proof.
  revert offset. induction fuel as [|fuel IH]; intros offset; [discriminate|].
  rewrite pageLoopQuiet_S, bind_callCurrentUsersPlaylists. cbn [outcome fst].
  destruct (CurrentUsersPlaylists client 50 offset) as [page|err] eqn:Epage;
    [|discriminate].
  destruct (scanPageQuiet EqualFold input page) as [found|] eqn:Escan.
  - intros H. injection H as <-.
    destruct (scanPageQuiet_entry _ _ Escan) as (entry & Hin & Hid & Hm).
    now exists offset, page, entry.
  - destruct (len page <? 50); [discriminate|]. apply IH.
Qed.

(** X28.  The resolver never makes an ID up.  Whatever the lister
    answers, an ID it returns is the input itself, or the segment cut out
    of a link, or the ID of an entry that the lister returned in one of
    its pages and that matches the input. *)
Theorem resolvePlaylistIDQuiet_provenance (fuel : nat) (id : string) :
  outcome (resolvePlaylistIDQuiet EqualFold fuel client input) = Done (Ok id) ->
  id = input
  \/ (Contains input playlistMarker = true /\ id = extractPlaylistID input)
  \/ exists offset page entry,
      CurrentUsersPlaylists client 50 offset = Ok page
      /\ In entry page /\ PlaylistID entry = id
      /\ entry_matches EqualFold input entry = true.
Proof.
  unfold resolvePlaylistIDQuiet.
  destruct (Contains input playlistMarker) eqn:Elink.
  { intros H. injection H as <-. right. left. now split. }
  destruct ((strlen input =? 22) && negb (Contains input " ")).
  { intros H. injection H as <-. now left. }
  cbv zeta.
  pose proof (pageLoopQuiet_provenance fuel 0 id) as Hloop.
  destruct (pageLoopQuiet EqualFold fuel client input 50 0)
    as [[[[found|err]|]| | |] t]; cbn [bind outcome ret fst] in *;
    intros H; try discriminate; injection H as <-.
  - right. right. now apply Hloop.
  - now left.
Qed.

End Provenance.

Section BearerPrefix.

Variable EqualFold : string -> string -> bool.

(** X27.  The ["Bearer "] prefix is optional.  Two requests without a
    [token] parameter and with the same query, one with
    [Authorization: Bearer <token>] and one with [Authorization: <token>],
    are answered alike by [handlePlayRequest] and by [handlePauseRequest],
    provided the token does not itself start with ["Bearer "]. *)
Theorem bearer_prefix_is_optional
        (fuel : nat) (apiAccessToken : string)
        (spotifyClient : option Client) (draw : Z)
        (query headersWith headersWithout : list (string * string))
        (token : string) :
  Get query "token" = EmptyString ->
  Get headersWith "Authorization" = ("Bearer " ++ token)%string ->
  Get headersWithout "Authorization" = token ->
  HasPrefix token "Bearer " = false ->
  handlePlayRequest EqualFold fuel apiAccessToken spotifyClient draw
                    (mkRequest query headersWith)
  = handlePlayRequest EqualFold fuel apiAccessToken spotifyClient draw
                      (mkRequest query headersWithout)
  /\ handlePauseRequest apiAccessToken spotifyClient
                        (mkRequest query headersWith)
     = handlePauseRequest apiAccessToken spotifyClient
                          (mkRequest query headersWithout).
Proof.
  intros Hq Hwith Hwithout Hraw.
  assert (Htok : requestToken (mkRequest query headersWith)
                 = requestToken (mkRequest query headersWithout)).
  { rewrite (requestToken_bearer (mkRequest query headersWith) token Hq Hwith).
    unfold requestToken, TrimPrefix. cbn [Query Header].
    now rewrite Hq, Hwithout, Hraw. }
  unfold handlePlayRequest, handlePauseRequest.
  now rewrite Htok.
Qed.

End BearerPrefix.

(* ================================================================== *)
(** ** The further statements at concrete inputs                        *)
(* ================================================================== *)

Lemma resolvePlaylistIDQuiet_requests_witness :
  exists n, (n <= 2)%nat
            /\ trace (resolvePlaylistIDQuiet EqualFoldASCII 2
                        Examples.twoPageClient "Unknown Playlist")
               = page_requests n.
Proof.
  apply (resolvePlaylistIDQuiet_requests EqualFoldASCII Examples.twoPageClient
           "Unknown Playlist" 2).
  vm_compute. discriminate.
Defined.

Lemma resolvePlaylistIDQuiet_returns_witness :
  exists r, outcome (resolvePlaylistIDQuiet EqualFoldASCII 2
                       Examples.twoPageClient "Unknown Playlist") = Done r.
Proof.
  apply (resolvePlaylistIDQuiet_returns EqualFoldASCII Examples.twoPageClient
           "Unknown Playlist" 1 2).
  - lia.
  - vm_compute. discriminate.
  - right. exists Examples.awesomePage. split; reflexivity.
Defined.

Lemma resolvePlaylistIDQuiet_pages_forever_witness :
  outcome (resolvePlaylistIDQuiet EqualFoldASCII 7 MoreExamples.loopingClient
                                  "Unknown Playlist") = OutOfFuel.
Proof.
  apply (resolvePlaylistIDQuiet_pages_forever EqualFoldASCII
           MoreExamples.loopingClient "Unknown Playlist" 7).
  - reflexivity.
  - left. simpl. lia.
  - intros offset. exists Examples.fillerPage.
    split; [reflexivity|]. split; [vm_compute; discriminate | reflexivity].
Defined.

Lemma fetchAllPlaylists_pages_witness :
  fetchAllPlaylists 2 Examples.twoPageClient
  = (Done (Examples.fillerPage ++ Examples.awesomePage)%list,
     [CallCurrentUsersPlaylists 50 0; CallCurrentUsersPlaylists 50 50]).
Proof.
  apply (fetchAllPlaylists_pages Examples.twoPageClient 2
           [Examples.fillerPage] Examples.awesomePage).
  - reflexivity.
  - constructor; [vm_compute; discriminate | constructor].
  - reflexivity.
  - simpl. lia.
  - vm_compute. discriminate.
Defined.

Lemma resolve_agrees_with_listing_witness :
  exists listing,
    outcome (fetchAllPlaylists 2 Examples.twoPageClient) = Done listing
    /\ outcome (resolvePlaylistIDQuiet EqualFoldASCII 2 Examples.twoPageClient
                                       "other playlist")
       = Done (Ok (match find (entry_matches EqualFoldASCII "other playlist")
                              listing with
                   | Some entry => PlaylistID entry
                   | None => "other playlist"
                   end)).
Proof.
  apply (resolve_agrees_with_listing Examples.twoPageClient EqualFoldASCII 2
           "other playlist" [Examples.fillerPage] Examples.awesomePage).
  - reflexivity.
  - left. simpl. lia.
  - reflexivity.
  - constructor; [vm_compute; discriminate | constructor].
  - reflexivity.
  - simpl. lia.
  - vm_compute. discriminate.
Defined.

Lemma PlayPlaylist_panics_only_in_Intn_witness :
  true = true /\ "invalid argument to Intn" = "invalid argument to Intn".
Proof.
  apply (proj2 (PlayPlaylist_panics_only_in_Intn EqualFoldASCII 1
                  (Some (Examples.mockClient Examples.threeSpeakers 0)) 5
                  "Target Speaker" MoreExamples.bareID true)
               "invalid argument to Intn").
  reflexivity.
Defined.

Lemma PlayPlaylist_play_command_witness :
  exists client devices target playlistID offset,
    Some (Examples.mockClient Examples.threeSpeakers 10) = Some client
    /\ PlayerDevices client = Ok devices
    /\ nth_error devices (targetIndex "Target Speaker" devices) = Some target
    /\ In target devices
    /\ outcome (resolvePlaylistIDQuiet EqualFoldASCII 1 client
                                       MoreExamples.bareID)
       = Done (Ok playlistID)
    /\ MoreExamples.playOptions 0
       = mkPlayOptions (Some (DeviceID target))
                       (Some ("spotify:playlist:" ++ playlistID))
                       (Some offset)
    /\ (false = false -> offset = 0).
Proof.
  apply (PlayPlaylist_play_command EqualFoldASCII 1
           (Some (Examples.mockClient Examples.threeSpeakers 10)) 5
           "Target Speaker" MoreExamples.bareID false
           (MoreExamples.playOptions 0)).
  right. right. left. reflexivity.
Defined.

Lemma PlayPlaylist_shuffle_sequence_witness :
  (exists message,
      outcome (PlayPlaylist EqualFoldASCII 1 (Some MoreExamples.noShuffleClient)
                            123 "Target Speaker" MoreExamples.bareID true)
      = Done (Ok message))
  /\ trace (PlayPlaylist EqualFoldASCII 1 (Some MoreExamples.noShuffleClient)
                         123 "Target Speaker" MoreExamples.bareID true)
     = [ CallPlayerDevices;
         CallGetPlaylist MoreExamples.bareID;
         CallPlayOpt (MoreExamples.playOptions 3);
         Sleep 500;
         CallShuffle true;
         Log "Warning: Failed to enable shuffle: Player command failed: Restriction violated" ].
Proof.
  apply (PlayPlaylist_shuffle_sequence EqualFoldASCII 1
           MoreExamples.noShuffleClient 123 "Target Speaker" MoreExamples.bareID
           Examples.threeSpeakers MoreExamples.targetSpeaker
           MoreExamples.bareID [] MoreExamples.tenTracks);
    reflexivity.
Defined.

Lemma PlayPlaylist_playback_refused_witness :
  PlayPlaylist EqualFoldASCII 1 (Some MoreExamples.refusingClient) 123
               "Target Speaker" MoreExamples.bareID true
  = (Done (Err (ErrorWrap "failed to start playback: "
                  (ErrorNew "Player command failed: No active device found"))),
     [ CallPlayerDevices;
       CallGetPlaylist MoreExamples.bareID;
       CallPlayOpt (MoreExamples.playOptions 3) ]).
Proof.
  apply (PlayPlaylist_playback_refused EqualFoldASCII 1
           MoreExamples.refusingClient 123 "Target Speaker" MoreExamples.bareID
           true Examples.threeSpeakers MoreExamples.targetSpeaker
           MoreExamples.bareID [] MoreExamples.tenTracks
           (ErrorNew "Player command failed: No active device found"));
    reflexivity.
Defined.

Lemma PlayPlaylist_from_the_top_witness :
  PlayPlaylist EqualFoldASCII 1
               (Some (Examples.mockClient Examples.threeSpeakers 0)) 123
               "Target Speaker" MoreExamples.bareID false
  = (Done (Ok ("Now playing " ++ dquote ++ "Test Playlist" ++ dquote
               ++ " on Target Speaker (starting at track 1)")),
     [ CallPlayerDevices;
       CallGetPlaylist MoreExamples.bareID;
       CallPlayOpt (MoreExamples.playOptions 0) ]).
Proof.
  apply (PlayPlaylist_from_the_top EqualFoldASCII 1
           (Examples.mockClient Examples.threeSpeakers 0) 123
           "Target Speaker" MoreExamples.bareID
           Examples.threeSpeakers MoreExamples.targetSpeaker
           MoreExamples.bareID []
           (mkFullPlaylist "Test Playlist" 0));
    reflexivity.
Defined.

Lemma handlePlayRequest_envelope_witness :
  ContentType (mkResponse 400 "application/json" missingPlaylistBody)
  = "application/json"
  /\ (400 = 200 \/ 400 = 400 \/ 400 = 401 \/ 400 = 500)
  /\ (false = true <-> 400 = 200)
  /\ (false = true ->
      "playlist parameter is required" = EmptyString
      /\ HasPrefix EmptyString "Now playing " = true)
  /\ (false = false ->
      EmptyString = EmptyString
      /\ "playlist parameter is required" <> EmptyString).
Proof.
  apply (handlePlayRequest_envelope EqualFoldASCII 1 "test-token" None 0
           Examples.tokenOnlyRequest
           (mkResponse 400 "application/json" missingPlaylistBody)).
  reflexivity.
Defined.

Lemma handlePlayRequest_guards_remote_witness :
  requestToken MoreExamples.playByQuery = "test-token"
  /\ Get (Query MoreExamples.playByQuery) "playlist" <> EmptyString
  /\ Some (Examples.mockClient Examples.threeSpeakers 10) <> None.
Proof.
  apply (handlePlayRequest_guards_remote EqualFoldASCII 1 "test-token"
           (Some (Examples.mockClient Examples.threeSpeakers 10)) 0
           MoreExamples.playByQuery CallPlayerDevices).
  left. reflexivity.
Defined.

Lemma token_channels_interchangeable_witness :
  handlePlayRequest EqualFoldASCII 1 "test-token"
                    (Some (Examples.mockClient Examples.threeSpeakers 10)) 0
                    MoreExamples.playByQuery
  = handlePlayRequest EqualFoldASCII 1 "test-token"
                      (Some (Examples.mockClient Examples.threeSpeakers 10)) 0
                      MoreExamples.playByHeader
  /\ handlePauseRequest "test-token"
                        (Some (Examples.mockClient Examples.threeSpeakers 10))
                        MoreExamples.playByQuery
     = handlePauseRequest "test-token"
                          (Some (Examples.mockClient Examples.threeSpeakers 10))
                          MoreExamples.playByHeader.
Proof.
  apply (token_channels_interchangeable EqualFoldASCII 1 "test-token"
           (Some (Examples.mockClient Examples.threeSpeakers 10)) 0
           MoreExamples.playByQuery MoreExamples.playByHeader "test-token");
    try reflexivity.
  discriminate.
Defined.

Lemma wrong_query_token_is_final_witness :
  handlePlayRequest EqualFoldASCII 1 "test-token"
                    (Some (Examples.mockClient Examples.threeSpeakers 10)) 0
                    MoreExamples.wrongQueryRightHeader
  = (Done (mkResponse 401 "application/json" invalidTokenBody), []).
Proof.
  apply (wrong_query_token_is_final EqualFoldASCII 1 "test-token"
           (Some (Examples.mockClient Examples.threeSpeakers 10)) 0
           MoreExamples.wrongQueryRightHeader);
    discriminate.
Defined.

Lemma protected_endpoints_agree_witness :
  handleAuthRequest (fun state => state) "test-token" Examples.bareRequest
  = HttpError "Unauthorized: Invalid or missing access token" 401.
Proof.
  apply (proj1 (proj1 (protected_endpoints_agree EqualFoldASCII 1
                         (fun state => state) "test-token" None 0
                         Examples.bareRequest))).
  discriminate.
Defined.

Lemma handlePlayRequest_lister_failure_witness :
  handlePlayRequest EqualFoldASCII 1 "test-token"
                    (Some MoreExamples.brokenListerClient) 0
                    MoreExamples.playByName
  = (Done (mkResponse 500 "application/json"
             (mkAPIResponse false EmptyString
                "failed to resolve playlist: failed to get playlists: API error")),
     [CallPlayerDevices; CallCurrentUsersPlaylists 50 0]).
Proof.
  apply (handlePlayRequest_lister_failure EqualFoldASCII 1 "test-token"
           MoreExamples.brokenListerClient 0 MoreExamples.playByName
           Examples.threeSpeakers (ErrorNew "API error")).
  - reflexivity.
  - reflexivity.
  - left. simpl. lia.
  - discriminate.
  - reflexivity.
  - discriminate.
  - reflexivity.
  - lia.
Defined.

Lemma main_hands_over_valid_settings_witness :
  serverMode MoreExamples.serverFlags = true
  /\ settingClientID MoreExamples.serverSettings <> EmptyString
  /\ settingClientSecret MoreExamples.serverSettings <> EmptyString
  /\ settingAPIAccessToken MoreExamples.serverSettings <> EmptyString
  /\ settingRedirectURI MoreExamples.serverSettings <> EmptyString
  /\ settingTokenFile MoreExamples.serverSettings <> EmptyString.
Proof.
  apply (proj1 (main_hands_over_valid_settings MoreExamples.serverFlags
                  MoreExamples.serverEnv)
               MoreExamples.serverSettings).
  reflexivity.
Defined.

Lemma started_server_rejects_tokenless_requests_witness :
  handlePlayRequest EqualFoldASCII 1 "test-token" None 0 Examples.bareRequest
  = (Done (mkResponse 401 "application/json" invalidTokenBody), [])
  /\ handlePauseRequest "test-token" None Examples.bareRequest
     = (Done (mkResponse 401 "application/json" invalidTokenBody), []).
Proof.
  apply (started_server_rejects_tokenless_requests EqualFoldASCII
           MoreExamples.serverFlags MoreExamples.serverEnv
           MoreExamples.serverSettings 1 None 0 Examples.bareRequest);
    reflexivity.
Defined.

Lemma handleAuthCallback_saves_iff_witness :
  SavedToken nat (handleAuthCallback nat (Ok 7%nat) "spotify-shortcut-state")
  = Some 7%nat.
Proof.
  apply (proj2 (proj1 (proj2 (handleAuthCallback_saves_iff
                                nat (Ok 7%nat) "spotify-shortcut-state"))
                      7%nat)).
  split; reflexivity.
Defined.

Lemma three_speakers_one_target :
  forall i j di dj,
    nth_error Examples.threeSpeakers i = Some di ->
    nth_error Examples.threeSpeakers j = Some dj ->
    matchesHint "Target Speaker" di = true ->
    matchesHint "Target Speaker" dj = true ->
    i = j.
Proof.
  intros [|[|[|i]]] [|[|[|j]]] di dj Hi Hj Hmi Hmj; simpl in Hi, Hj;
    try reflexivity;
    try (injection Hi as <-; discriminate);
    try (injection Hj as <-; discriminate);
    try (destruct i; discriminate);
    destruct j; discriminate.
Defined.

Lemma chooseDevice_in_list_witness :
  exists target output i,
    chooseDevice Examples.twoDens "Den" = (Done target, output)
    /\ nth_error Examples.twoDens i = Some target
    /\ ((last_index (matchesHint "Den") Examples.twoDens i)
        \/ ((forall device, In device Examples.twoDens ->
                            matchesHint "Den" device = false)
            /\ (first_index Active Examples.twoDens i
                \/ ((forall device, In device Examples.twoDens ->
                                    Active device = false)
                    /\ i = 0%nat)))).
Proof.
  apply (chooseDevice_in_list Examples.twoDens "Den").
  discriminate.
Defined.

Lemma command_line_and_server_select_alike_witness :
  exists target output,
    chooseDevice Examples.threeSpeakers "Target Speaker" = (Done target, output)
    /\ nth_error Examples.threeSpeakers
                 (targetIndex "Target Speaker" Examples.threeSpeakers)
       = Some target.
Proof.
  apply (command_line_and_server_select_alike Examples.threeSpeakers
           "Target Speaker").
  - discriminate.
  - exact three_speakers_one_target.
Defined.

Lemma command_line_plays_like_server_witness :
  remote_calls (PlayPlaylist EqualFoldASCII 1
                  (Some (Examples.mockClient Examples.threeSpeakers 10)) 123
                  "Target Speaker" "my awesome playlist" true)
  = CallPlayerDevices
      :: remote_calls (handlePlayPlaylist EqualFoldASCII 1
                         (Examples.mockClient Examples.threeSpeakers 10) 123
                         Examples.threeSpeakers "Target Speaker"
                         "my awesome playlist" true)
  /\ same_ending
       (outcome (PlayPlaylist EqualFoldASCII 1
                   (Some (Examples.mockClient Examples.threeSpeakers 10)) 123
                   "Target Speaker" "my awesome playlist" true))
       (outcome (handlePlayPlaylist EqualFoldASCII 1
                   (Examples.mockClient Examples.threeSpeakers 10) 123
                   Examples.threeSpeakers "Target Speaker"
                   "my awesome playlist" true)).
Proof.
  apply (command_line_plays_like_server EqualFoldASCII 1
           (Examples.mockClient Examples.threeSpeakers 10) 123
           Examples.threeSpeakers "Target Speaker" "my awesome playlist" true).
  - reflexivity.
  - discriminate.
  - exact three_speakers_one_target.
Defined.

Lemma resolvePlaylistIDQuiet_provenance_witness :
  "found123playlistid00" = "my awesome playlist"
  \/ (Contains "my awesome playlist" playlistMarker = true
      /\ "found123playlistid00" = extractPlaylistID "my awesome playlist")
  \/ exists offset page entry,
      CurrentUsersPlaylists Examples.twoPageClient 50 offset = Ok page
      /\ In entry page /\ PlaylistID entry = "found123playlistid00"
      /\ entry_matches EqualFoldASCII "my awesome playlist" entry = true.
Proof.
  apply (resolvePlaylistIDQuiet_provenance EqualFoldASCII Examples.twoPageClient
           "my awesome playlist" 2 "found123playlistid00").
  reflexivity.
Defined.

Lemma bearer_prefix_is_optional_witness :
  handlePlayRequest EqualFoldASCII 1 "test-token"
                    (Some (Examples.mockClient Examples.threeSpeakers 10)) 0
                    (mkRequest [("playlist", MoreExamples.bareID)]
                               [("Authorization", "Bearer test-token")])
  = handlePlayRequest EqualFoldASCII 1 "test-token"
                      (Some (Examples.mockClient Examples.threeSpeakers 10)) 0
                      (mkRequest [("playlist", MoreExamples.bareID)]
                                 [("Authorization", "test-token")])
  /\ handlePauseRequest "test-token"
                        (Some (Examples.mockClient Examples.threeSpeakers 10))
                        (mkRequest [("playlist", MoreExamples.bareID)]
                                   [("Authorization", "Bearer test-token")])
     = handlePauseRequest "test-token"
                          (Some (Examples.mockClient Examples.threeSpeakers 10))
                          (mkRequest [("playlist", MoreExamples.bareID)]
                                     [("Authorization", "test-token")]).
Proof.
  apply (bearer_prefix_is_optional EqualFoldASCII 1 "test-token"
           (Some (Examples.mockClient Examples.threeSpeakers 10)) 0
           [("playlist", MoreExamples.bareID)]
           [("Authorization", "Bearer test-token")]
           [("Authorization", "test-token")] "test-token");
    reflexivity.
Defined.

(* ================================================================== *)
(** ** Twenty-two bytes, not twenty-two characters                      *)
(* ================================================================== *)

(** On ASCII text the number of characters is the number of bytes. *)
Lemma utf8_length_ascii (s : string) :
  (forall c, has_byte c s = true -> (nat_of_ascii c < 128)%nat) ->
  utf8_length s = String.length s.
Proof.
  induction s as [|b s IH]; intros Hascii; [reflexivity|].
  simpl. unfold is_continuation_byte.
  assert (Hb : (nat_of_ascii b < 128)%nat).
  { apply Hascii. simpl. now rewrite Ascii.eqb_refl. }
  destruct (Nat.leb_spec 128 (nat_of_ascii b)); [lia|].
  cbn [andb]. f_equal. apply IH.
  intros c Hc. apply Hascii. simpl. rewrite Hc. apply orb_true_r.
Qed.

(** C4, as the claim states it, fails on a name of 22 characters that is
    not 22 bytes long: "Caf\u00e9-Road-Trip-2024-xx" holds no link marker and
    no space and has 22 characters, but [len] gives 23, so the resolver
    does ask the lister and returns the ID of the playlist of that name,
    not the input. *)
Lemma bare_id_counts_bytes_not_characters :
  Contains Accents.cafeName playlistMarker = false
  /\ utf8_length Accents.cafeName = 22%nat
  /\ Contains Accents.cafeName " " = false
  /\ String.length Accents.cafeName = 23%nat
  /\ resolvePlaylistIDQuiet EqualFoldASCII 1 Accents.accentsClient
                            Accents.cafeName
     = (Done (Ok "37i9dQZF1DXcBWIGoYBM5M"), [CallCurrentUsersPlaylists 50 0])
  /\ resolvePlaylistIDQuiet EqualFoldASCII 1 Accents.accentsClient
                            Accents.cafeName
     <> (Done (Ok Accents.cafeName), []).
Proof.
  split; [reflexivity|]. split; [reflexivity|]. split; [reflexivity|].
  split; [reflexivity|]. split; [reflexivity|].
  discriminate.
Qed.

(** C6, as the claim states it, fails on a name that is not 22 characters
    long but is 22 bytes long: "\u20acuro-Trip-Summer-24!" holds no link
    marker and has 20 characters, so by the claim's words it is searched by
    name and resolves to the ID of the listed playlist of that name; but
    [len] gives 22 and there is no space, so the resolver returns the
    input unchanged and asks the lister nothing. *)
Lemma name_search_skips_22_byte_names :
  Contains Accents.euroName playlistMarker = false
  /\ utf8_length Accents.euroName = 20%nat
  /\ String.length Accents.euroName = 22%nat
  /\ Contains Accents.euroName " " = false
  /\ option_map PlaylistID
                (find (entry_matches EqualFoldASCII Accents.euroName)
                      [ mkSimplePlaylist "37i9dQZF1DXcBWIGoYBM5M"
                                         Accents.cafeName;
                        mkSimplePlaylist "5FJXhjdILmRA2z5bvz4nzf"
                                         Accents.euroName ])
     = Some "5FJXhjdILmRA2z5bvz4nzf"
  /\ resolvePlaylistIDQuiet EqualFoldASCII 1 Accents.accentsClient
                            Accents.euroName
     = (Done (Ok Accents.euroName), [])
  /\ outcome (resolvePlaylistIDQuiet EqualFoldASCII 1 Accents.accentsClient
                                     Accents.euroName)
     <> Done (Ok "5FJXhjdILmRA2z5bvz4nzf").
Proof.
  split; [reflexivity|]. split; [reflexivity|]. split; [reflexivity|].
  split; [reflexivity|]. split; [reflexivity|]. split; [reflexivity|].
  discriminate.
Qed.
